(** * hopr-core-polkadot: payment-channel connector

    A shallow embedding of the channel module ([Channel], file
    channel/index.ts), of the connector ([HoprPolkadot], index.ts) and of
    the [SignedTicket] type, together with the properties of the
    natural-language specification that concern them.

    Conventions.
    - A [Uint8Array] is a list of byte values, each a [Z] in [0, 256).
    - A promise is represented by the way it settles ([Js.Promise]):
      fulfilled with a value, rejected with an error, or never settled.
    - The persisted store (LevelUp) is a finite map from byte-string keys
      to byte-string values; a range scan enumerates it in bytewise key
      order.
    - Mutable objects ([this._nonce], [this._channelId], the store) are
      threaded explicitly through the functions that touch them. *)

From Stdlib Require Import ZArith List Lia Bool.
From stdpp Require Import base option list gmap strings pretty sorting.

Local Open Scope Z_scope.

(* ===================================================================== *)
(** ** JavaScript runtime notions used by the sources *)
(* ===================================================================== *)

Module Js.

(** [Uint8Array] contents. *)
Definition u8a := list Z.

(** An [Error] object.  [notFound] is the property LevelUp sets on its
    NotFoundError; [None] stands for an absent ([undefined]) property. *)
Record Error := mkErr { message : string; notFound : option bool }.

(** [Error(msg)] *)
Definition Error_ (msg : string) : Error :=
  {| message := msg; notFound := None |}.

(** Truthiness of [err.notFound]. *)
Definition truthy (o : option bool) : bool :=
  match o with Some b => b | None => false end.

(** How a promise settles.  [Pending] is a promise on which neither
    [resolve] nor [reject] is ever called. *)
Inductive Promise (A : Type) : Type :=
| Resolved (a : A)
| Rejected (e : Error)
| Pending.
Arguments Resolved {A} a.
Arguments Rejected {A} e.
Arguments Pending {A}.

(** The completion of synchronous code: a value, or a thrown error. *)
Inductive Result (A : Type) : Type :=
| Ok (a : A)
| Throw (e : Error).
Arguments Ok {A} a.
Arguments Throw {A} e.

(** [p.then(onFulfilled, onRejected)]: a callback that returns is
    [Resolved], one that throws is [Rejected]. *)
Definition then2 {A B} (p : Promise A)
    (onFulfilled : A -> Promise B) (onRejected : Error -> Promise B)
  : Promise B :=
  match p with
  | Resolved a => onFulfilled a
  | Rejected e => onRejected e
  | Pending => Pending
  end.

(** [p.then(onFulfilled)] *)
Definition then1 {A B} (p : Promise A) (onFulfilled : A -> Promise B)
  : Promise B :=
  then2 p onFulfilled Rejected.

(** [Promise.all(ps)]: rejected as soon as one member is rejected
    (the member of least index stands for the one that rejects first),
    otherwise fulfilled once every member is. *)
Fixpoint first_rejection {A} (ps : list (Promise A)) : option Error :=
  match ps with
  | [] => None
  | Rejected e :: _ => Some e
  | _ :: ps' => first_rejection ps'
  end.

Fixpoint all_values {A} (ps : list (Promise A)) : option (list A) :=
  match ps with
  | [] => Some []
  | Resolved a :: ps' =>
      match all_values ps' with
      | Some vs => Some (a :: vs)
      | None => None
      end
  | _ :: _ => None
  end.

Definition all {A} (ps : list (Promise A)) : Promise (list A) :=
  match first_rejection ps with
  | Some e => Rejected e
  | None =>
      match all_values ps with
      | Some vs => Resolved vs
      | None => Pending
      end
  end.

(** [Promise.all([p, q])] for members of different types. *)
Definition all2 {A B} (p : Promise A) (q : Promise B) : Promise (A * B) :=
  match p, q with
  | Rejected e, _ => Rejected e
  | _, Rejected e => Rejected e
  | Resolved a, Resolved b => Resolved (a, b)
  | _, _ => Pending
  end.

(** [u8aToHex] of @polkadot/util: ["0x"] followed by two lowercase
    hexadecimal digits per byte. *)
Definition hex_digit (d : Z) : string :=
  match d with
  | 0 => "0" | 1 => "1" | 2 => "2" | 3 => "3" | 4 => "4" | 5 => "5"
  | 6 => "6" | 7 => "7" | 8 => "8" | 9 => "9" | 10 => "a" | 11 => "b"
  | 12 => "c" | 13 => "d" | 14 => "e" | _ => "f"
  end.

Fixpoint hex_body (bs : u8a) : string :=
  match bs with
  | [] => ""
  | b :: bs' => hex_digit (b / 16 mod 16) +:+ hex_digit (b mod 16) +:+ hex_body bs'
  end.

Definition u8aToHex (bs : u8a) : string := "0x" +:+ hex_body bs.

(** [u8aConcat] of @polkadot/util. *)
Definition u8aConcat (parts : list u8a) : u8a := concat parts.

(** [new Uint8Array(n)]: [n] zero bytes. *)
Definition zeros (n : nat) : u8a := repeat 0 n.

End Js.

Export Js (Promise, Resolved, Rejected, Pending).

(* ===================================================================== *)
(** ** The persisted store (LevelUp) *)
(* ===================================================================== *)

Module LevelUp.

Import Js.

(** Keys and values are byte strings; the store is a finite map. *)
Definition Db := gmap (list Z) (list Z).

(** The error of a failed lookup: [err.notFound] is [true]. *)
Definition NotFoundError : Error :=
  {| message := "NotFoundError: Key not found in database";
     notFound := Some true |}.

(** [db.get(key)] *)
Definition get (db : gmap (list Z) (list Z)) (key : list Z) : Promise (list Z) :=
  match db !! key with
  | Some v => Resolved v
  | None => Rejected NotFoundError
  end.

(** [db.put(key, value)] for a value that reaches the store as bytes (a
    [Buffer]); a caller that hands over another kind of value models
    what the store keeps of it. *)
Definition put (db : gmap (list Z) (list Z)) (key value : list Z)
  : gmap (list Z) (list Z) :=
  <[key := value]> db.

(** Bytewise (lexicographic) key order, the comparator of the store. *)
Fixpoint key_ltb (a b : list Z) : bool :=
  match a, b with
  | [], [] => false
  | [], _ :: _ => true
  | _ :: _, [] => false
  | x :: a', y :: b' =>
      if x <? y then true
      else if y <? x then false
      else key_ltb a' b'
  end.

Definition entry_le (e1 e2 : list Z * list Z) : Prop :=
  key_ltb (fst e2) (fst e1) = false.

#[export] Instance entry_le_dec e1 e2 : Decision (entry_le e1 e2).
Proof. unfold entry_le. apply _. Defined.

(** What a read stream emits: its ['data'] events in order, then either
    ['end'] ([None]) or ['error'] ([Some e]). *)
Record ReadStream := mkStream {
  data : list (list Z * list Z);
  failure : option Error
}.

Definition in_range (gt lt : list Z) (e : list Z * list Z) : bool :=
  key_ltb gt (fst e) && key_ltb (fst e) lt.

(** [db.createReadStream({ gt, lt })]: the entries whose key lies
    strictly between the bounds, in ascending key order.  A scan of the
    map itself ends without an ['error'] event; the handlers of a stream
    that fails are those of [Channel.getAll_on] and
    [Channel.challenges_on], which take any stream. *)
Definition scan (db : gmap (list Z) (list Z)) (gt lt : list Z)
  : list (list Z * list Z) :=
  List.filter (in_range gt lt) (merge_sort entry_le (map_to_list db)).

Definition createReadStream (db : gmap (list Z) (list Z)) (gt lt : list Z)
  : ReadStream :=
  {| data := scan db gt lt; failure := None |}.

End LevelUp.

(* ===================================================================== *)
(** ** Ledger types (srml_types) *)
(* ===================================================================== *)

Module Types.

Import Js.

Definition Hash := u8a.
Definition AccountId := u8a.
Definition Moment := Z.

(** [Balance] wraps a big number; [createType('Balance', bn)] keeps the
    number it is given. *)
Definition Balance := Z.

Record ChannelBalance := mkChannelBalance {
  balance : Balance;       (* total escrowed *)
  balance_a : Balance      (* share of party A *)
}.

(** The [Channel] enum of the ledger. *)
Inductive ChannelEnum :=
| Uninitialized
| Funded (b : ChannelBalance)
| Active (b : ChannelBalance)
| PendingSettlement (b : ChannelBalance) (t : Moment).

(** [channel.type] *)
Definition type (c : ChannelEnum) : string :=
  match c with
  | Uninitialized => "Uninitialized"
  | Funded _ => "Funded"
  | Active _ => "Active"
  | PendingSettlement _ _ => "PendingSettlement"
  end.

(** The balances that a channel state carries. *)
Definition balances (c : ChannelEnum) : option ChannelBalance :=
  match c with
  | Uninitialized => None
  | Funded b => Some b
  | Active b => Some b
  | PendingSettlement b _ => Some b
  end.

Record SignedChannel := mkSignedChannel {
  channel : ChannelEnum;
  signer : u8a
}.

(** The ledger as the connector sees it: the settled outcome of each
    query it issues. *)
Record Api := mkApi {
  query_hopr_channels : Hash -> Promise (option ChannelEnum);
  query_hopr_pendingWindow : Promise Moment;
  query_system_accountNonce : Promise Z
}.

End Types.

(* ===================================================================== *)
(** ** The channel settler (channel/settle) *)
(* ===================================================================== *)

Module ChannelSettler.

Import Js.

(** Modelled from the spec: the module ./settle that defines
    [ChannelSettler] is not among the sources.  Section 4.3 of the
    specification gives its contract: [once_closed()] resolves when the
    settlement window expires or the counterparty closes cooperatively,
    and [withdraw()] may only be invoked after that; invoked earlier it
    faults with [NotYetClosed]. *)
Record Settler := mkSettler {
  closed : bool;       (* the ledger has closed the channel *)
  withdrawn : bool     (* the funds have been withdrawn *)
}.

Definition created : Settler := {| closed := false; withdrawn := false |}.

Definition NotYetClosed : Error := Error_ "NotYetClosed".

(** Modelled from the spec: the window expiring or the cooperative
    closure, which is what resolves [once_closed()]. *)
Definition close (s : Settler) : Settler :=
  {| closed := true; withdrawn := withdrawn s |}.

(** Modelled from the spec: [withdraw()]. *)
Definition withdraw (s : Settler) : Settler * Promise unit :=
  if closed s
  then ({| closed := true; withdrawn := true |}, Resolved tt)
  else (s, Rejected NotYetClosed).

End ChannelSettler.

(* ===================================================================== *)
(** ** The channel module (channel/index.ts) *)
(* ===================================================================== *)

Module Channel.

Import Js Types.

(** The connector as the channel module uses it: the ledger, the store
    and the on-chain account of the local party. *)
Record HoprPolkadot := mkHopr {
  api : Api;
  db : gmap (list Z) (list Z);
  self : AccountId
}.

(** A [Channel] object: the counterparty and three lazily filled
    fields. *)
Record Channel := mkChannel {
  counterparty : AccountId;
  _signedChannel : option SignedChannel;
  _settlementWindow : option Moment;
  _channelId : option Hash
}.

(** [new Channel(hoprPolkadot, counterparty, signedChannel)] *)
Definition new (counterparty : AccountId) (signedChannel : SignedChannel)
  : Channel :=
  {| counterparty := counterparty;
     _signedChannel := Some signedChannel;
     _settlementWindow := None;
     _channelId := None |}.

(** A promise made by [new Promise(async (resolve, reject) => ...)]
    whose body throws outside its own [try]: the exception rejects the
    promise of the async executor, and the outer one is never settled. *)
Definition unguarded {A} (p : Promise A) : Promise A :=
  match p with
  | Resolved a => Resolved a
  | _ => Pending
  end.

(** [const NONCE_HASH_KEY = Uint8Array.from(new TextEncoder().encode('Nonce'))] *)
Definition NONCE_HASH_KEY : u8a := [78; 111; 110; 99; 101].

Section WithCollaborators.

(** Parts of the repository that the channel module imports: the key
    layout (dbKeys), the utilities (utils), the codec of
    [SignedChannel], and the hash of @polkadot/wasm-crypto. *)
Variable dbKeys_Channel : AccountId -> list Z.
Variable dbKeys_ChannelKeyParse : list Z -> AccountId.
Variable dbKeys_Challenge : Hash -> Hash -> list Z.
Variable dbKeys_ChallengeKeyParse : list Z -> Hash * Hash.
Variable dbKeys_Nonce : Hash -> Hash -> list Z.
Variable utils_getId : AccountId -> AccountId -> Promise Hash.
Variable utils_isPartyA : AccountId -> AccountId -> bool.
Variable utils_u8aXOR : list u8a -> u8a.
Variable SignedChannel_decode : list Z -> SignedChannel.
Variable blake2b : u8a -> u8a -> nat -> u8a.
(** [createType('Hash', bytes)] and the static [Hash.length]. *)
Variable createType_Hash : u8a -> Hash.
Variable Hash_length : nat.

(** *** Lazily cached getters *)

(** [get channelId()] *)
Definition channelId (hopr : HoprPolkadot) (this : Channel)
  : Channel * Promise Hash :=
  match _channelId this with
  | Some id => (this, Resolved id)
  | None =>
      match utils_getId (self hopr) (counterparty this) with
      | Resolved id =>
          ({| counterparty := counterparty this;
              _signedChannel := _signedChannel this;
              _settlementWindow := _settlementWindow this;
              _channelId := Some id |}, Resolved id)
      | Rejected e => (this, Rejected e)
      | Pending => (this, Pending)
      end
  end.

(** [private get channel()] *)
Definition channel_ (hopr : HoprPolkadot) (this : Channel)
  : Channel * Promise ChannelEnum :=
  match _signedChannel this with
  | Some sc => (this, Resolved (channel sc))
  | None =>
      match LevelUp.get (db hopr) (dbKeys_Channel (counterparty this)) with
      | Resolved v =>
          let sc := SignedChannel_decode v in
          ({| counterparty := counterparty this;
              _signedChannel := Some sc;
              _settlementWindow := _settlementWindow this;
              _channelId := _channelId this |}, Resolved (channel sc))
      | Rejected e => (this, Rejected e)
      | Pending => (this, Pending)
      end
  end.

(** [get settlementWindow()] *)
Definition settlementWindow (hopr : HoprPolkadot) (this : Channel)
  : Channel * Promise Moment :=
  match _settlementWindow this with
  | Some w => (this, Resolved w)
  | None =>
      match query_hopr_pendingWindow (api hopr) with
      | Resolved w =>
          ({| counterparty := counterparty this;
              _signedChannel := _signedChannel this;
              _settlementWindow := Some w;
              _channelId := _channelId this |}, Resolved w)
      | Rejected e => (this, Rejected e)
      | Pending => (this, Pending)
      end
  end.

(** [get state()] *)
Definition state := channel_.

(** *** Balances *)

Definition invalid_state (c : ChannelEnum) : Error :=
  Error_ ("Invalid state. Got '" +:+ type c +:+ "'").

(** [get balance_a()] *)
Definition balance_a (hopr : HoprPolkadot) (this : Channel)
  : Channel * Promise Balance :=
  let '(this', p) := channel_ hopr this in
  (this', then1 p (fun c =>
     match c with
     | Funded b => Resolved (Types.balance_a b)
     | Active b => Resolved (Types.balance_a b)
     | PendingSettlement b _ => Resolved (Types.balance_a b)
     | _ => Rejected (invalid_state c)
     end)).

(** [get balance()] *)
Definition balance (hopr : HoprPolkadot) (this : Channel)
  : Channel * Promise Balance :=
  let '(this', p) := channel_ hopr this in
  (this', then1 p (fun c =>
     match c with
     | Funded b => Resolved (Types.balance b)
     | Active b => Resolved (Types.balance b)
     | PendingSettlement b _ => Resolved (Types.balance b)
     | _ => Rejected (invalid_state c)
     end)).

(** [(await this.balance).sub(await this.balance_a)] inside a promise
    executor, wrapped by [createType('Balance', _)]. *)
Definition remainder (hopr : HoprPolkadot) (this : Channel)
  : Channel * Promise Balance :=
  let '(this1, total) := balance hopr this in
  match total with
  | Resolved t =>
      let '(this2, share) := balance_a hopr this1 in
      (this2, unguarded (then1 share (fun a => Resolved (t - a))))
  | _ => (this1, Pending)
  end.

(** [get currentBalance()] *)
Definition currentBalance (hopr : HoprPolkadot) (this : Channel)
  : Channel * Promise Balance :=
  if utils_isPartyA (self hopr) (counterparty this)
  then balance_a hopr this
  else remainder hopr this.

(** [get currentBalanceOfCounterparty()] *)
Definition currentBalanceOfCounterparty (hopr : HoprPolkadot) (this : Channel)
  : Channel * Promise Balance :=
  if negb (utils_isPartyA (self hopr) (counterparty this))
  then balance_a hopr this
  else remainder hopr this.

(** *** isOpen *)

(** The first member of the [Promise.all] of [isOpen]: the ledger
    query with both of its handlers. *)
Definition onChain_of (q : Promise (option ChannelEnum)) : Promise bool :=
  then2 q
    (fun channel =>
       Resolved match channel with
                | Some Uninitialized => false
                | Some _ => true
                | None => false
                end)
    (fun _ => Resolved false).

(** The second member: the store lookup with both of its handlers. *)
Definition offChain_of (g : Promise (list Z)) : Promise bool :=
  then2 g
    (fun _ => Resolved true)
    (fun err => if truthy (notFound err) then Resolved false else Rejected err).

Definition off_chain_only (channelId : Hash) : Error :=
  Error_ ("Channel " +:+ u8aToHex channelId +:+ " exists off-chain but not on-chain.").

Definition on_chain_only (channelId : Hash) : Error :=
  Error_ ("Channel " +:+ u8aToHex channelId +:+ " exists on-chain but not off-chain.").

(** The body of [isOpen] on the outcomes of its two requests. *)
Definition isOpen_on (q : Promise (option ChannelEnum)) (g : Promise (list Z))
    (channelId : Hash) : Promise bool :=
  then1 (all2 (onChain_of q) (offChain_of g))
    (fun '(onChain, offChain) =>
       if negb (eqb onChain offChain) then
         if negb onChain && offChain
         then Rejected (off_chain_only channelId)
         else Rejected (on_chain_only channelId)
       else Resolved (onChain && offChain)).

(** [static async isOpen(hoprPolkadot, counterparty, channelId)] *)
Definition isOpen (hopr : HoprPolkadot) (counterparty : AccountId)
    (channelId : Hash) : Promise bool :=
  isOpen_on (query_hopr_channels (api hopr) channelId)
            (LevelUp.get (db hopr) (dbKeys_Channel counterparty))
            channelId.

(** *** The nonce guard *)

Definition nonce_reused : Error := Error_ "Nonces must not be used twice.".

(** The handlers that [testAndSetNonce] attaches to the lookup. *)
Definition nonce_check (g : Promise (list Z)) : Promise unit :=
  then2 g
    (fun _ => Rejected nonce_reused)
    (fun err =>
       match notFound err with
       | None => Rejected err
       | Some nf => if negb nf then Rejected err else Resolved tt
       end).

(** [async testAndSetNonce(signature)]: the state is the store of the
    connector and the channel object. *)
Definition testAndSetNonce (hopr : HoprPolkadot) (this : Channel)
    (signature : u8a) : (HoprPolkadot * Channel) * Promise unit :=
  let nonce := blake2b signature NONCE_HASH_KEY 32 in
  let '(this', id) := channelId hopr this in
  match id with
  | Resolved cid =>
      let key := dbKeys_Nonce cid (createType_Hash nonce) in
      ((hopr, this'), nonce_check (LevelUp.get (db hopr) key))
  | Rejected e => ((hopr, this'), Rejected e)
  | Pending => ((hopr, this'), Pending)
  end.

(** *** Settlement *)

(** What [initiateSettlement] does that the rest of the node can
    observe, in the order in which it happens. *)
Inductive Call :=
| CreateCalled
| OnceClosedCalled
| InitCalled
| OnceClosedResolved
| WithdrawCalled.

(** What the ledger delivers while a settlement is in progress. *)
Inductive Event :=
| Closure                           (* window elapsed or cooperative close *)
| InitSettled (r : Promise unit).   (* the transaction of [init()] settles *)

(** A settlement in progress: the settler, whether the callback given
    to [onceClosed().then] still waits, the two members of the
    [Promise.all], and the calls made so far. *)
Record Settlement := mkSettlement {
  settler : ChannelSettler.Settler;
  waiting : bool;
  closing : Promise unit;      (* onceClosed().then(() => withdraw()) *)
  initiating : Promise unit;   (* init() *)
  calls : list Call
}.

(** The synchronous part, after [ChannelSettler.create] resolved:
    [onceClosed()] is called and its continuation registered, then
    [init()] is called. *)
Definition started : Settlement :=
  {| settler := ChannelSettler.created;
     waiting := true;
     closing := Pending;
     initiating := Pending;
     calls := [CreateCalled; OnceClosedCalled; InitCalled] |}.

(** One event of the ledger. *)
Definition deliver (d : Settlement) (ev : Event) : Settlement :=
  match ev with
  | Closure =>
      let s := ChannelSettler.close (settler d) in
      if waiting d then
        let '(s', r) := ChannelSettler.withdraw s in
        {| settler := s';
           waiting := false;
           closing := r;
           initiating := initiating d;
           calls := calls d ++ [OnceClosedResolved; WithdrawCalled] |}
      else
        {| settler := s;
           waiting := false;
           closing := closing d;
           initiating := initiating d;
           calls := calls d |}
  | InitSettled r =>
      {| settler := settler d;
         waiting := waiting d;
         closing := closing d;
         initiating := match initiating d with Pending => r | p => p end;
         calls := calls d |}
  end.

Definition settle (evs : list Event) : Settlement :=
  fold_left deliver evs started.

(** [async initiateSettlement()]: [create] is how
    [ChannelSettler.create] settles and [evs] what the ledger
    delivers afterwards. *)
Definition initiateSettlement (hopr : HoprPolkadot) (this : Channel)
    (create : Promise unit) (evs : list Event)
  : Channel * list Call * Promise unit :=
  let '(this1, id) := channelId hopr this in
  match id with
  | Resolved _ =>
      let '(this2, w) := settlementWindow hopr this1 in
      match w with
      | Resolved _ =>
          match create with
          | Resolved _ =>
              let d := settle evs in
              (this2, calls d,
               then1 (all2 (closing d) (initiating d)) (fun _ => Resolved tt))
          | Rejected e => (this2, [CreateCalled], Rejected e)
          | Pending => (this2, [CreateCalled], Pending)
          end
      | Rejected e => (this2, [], Rejected e)
      | Pending => (this2, [], Pending)
      end
  | Rejected e => (this1, [], Rejected e)
  | Pending => (this1, [], Pending)
  end.

(** The two shapes a settlement in progress can have: still waiting
    for the closure, or closed with the withdrawal made. *)
Definition awaiting_closure (d : Settlement) : Prop :=
  waiting d = true /\
  settler d = ChannelSettler.created /\
  closing d = Pending /\
  calls d = [CreateCalled; OnceClosedCalled; InitCalled].

Definition withdrawn_after_closure (d : Settlement) : Prop :=
  waiting d = false /\
  settler d = {| ChannelSettler.closed := true; ChannelSettler.withdrawn := true |} /\
  closing d = Resolved tt /\
  calls d = [CreateCalled; OnceClosedCalled; InitCalled;
             OnceClosedResolved; WithdrawCalled].

(** *** Challenges *)

(** The two bounds of the range scan of [getPreviousChallenges]; both
    are built from [new Uint8Array(Hash.length).fill(0x00)]. *)
Definition challenge_gt (cid : Hash) : list Z :=
  dbKeys_Challenge cid (createType_Hash (repeat 0 Hash_length)).

Definition challenge_lt (cid : Hash) : list Z :=
  dbKeys_Challenge cid (createType_Hash (repeat 0 Hash_length)).

(** The ['data'] handler of [getPreviousChallenges].  It takes the
    properties [key] and [ownKeyHalf] of the emitted object; a read
    stream emits objects with the properties [key] and [value], so
    [ownKeyHalf] is [undefined] and [ownKeyHalf.toU8a()] throws.
    [None] stands for that exception. *)
Definition challenge_on_data (entry : list Z * list Z) : option u8a :=
  let '(_, challenge) := dbKeys_ChallengeKeyParse (fst entry) in
  let ownKeyHalf : option u8a := None in
  match ownKeyHalf with
  | Some half => Some (utils_u8aXOR [challenge; half])
  | None => None
  end.

Fixpoint collect (entries : list (list Z * list Z)) (pubKeys : list u8a)
  : option (list u8a) :=
  match entries with
  | [] => Some pubKeys
  | e :: rest =>
      match challenge_on_data e with
      | Some k => collect rest (pubKeys ++ [k])
      | None => None
      end
  end.

(** The handlers of ['error'], ['data'] and ['end'] on a stream.  An
    exception that escapes the ['data'] handler leaves the promise
    unsettled.  [Resolved None] is [resolve()], the [undefined]
    result. *)
Definition challenges_on (stream : LevelUp.ReadStream)
  : Promise (option Hash) :=
  match collect (LevelUp.data stream) [] with
  | None => Pending
  | Some pubKeys =>
      match LevelUp.failure stream with
      | Some e => Rejected e
      | None =>
          if (0 <? Z.of_nat (length pubKeys))
          then Resolved (Some (createType_Hash (utils_u8aXOR pubKeys)))
          else Resolved None
      end
  end.

(** [async getPreviousChallenges()] *)
Definition getPreviousChallenges (hopr : HoprPolkadot) (this : Channel)
  : Channel * Promise (option Hash) :=
  let '(this', id) := channelId hopr this in
  match id with
  | Resolved cid =>
      (this', challenges_on
                (LevelUp.createReadStream (db hopr) (challenge_gt cid) (challenge_lt cid)))
  | _ => (this', Pending)
  end.

(** *** Enumeration of the stored channels *)

Definition channels_gt : list Z :=
  dbKeys_Channel (createType_Hash (repeat 0 Hash_length)).

Definition channels_lt : list Z :=
  dbKeys_Channel (createType_Hash (repeat 255 Hash_length)).

(** The channel object that the ['data'] handler of [getAll] builds. *)
Definition channel_of (entry : list Z * list Z) : Channel :=
  new (dbKeys_ChannelKeyParse (fst entry)) (SignedChannel_decode (snd entry)).

(** The ['data'] events of [getAll]: [onData] runs on each channel in
    turn, with its effects on a state [S], and
    [Promise.resolve(onData(...))] is pushed on [promises]. *)
Fixpoint visit {S T} (onData : Channel -> S -> S * Promise T)
    (entries : list (list Z * list Z)) (s : S) (promises : list (Promise T))
  : S * list (Promise T) :=
  match entries with
  | [] => (s, promises)
  | e :: rest =>
      let '(s', p) := onData (channel_of e) s in
      visit onData rest s' (promises ++ [p])
  end.

Definition getAll_on {S T R} (onData : Channel -> S -> S * Promise T)
    (onEnd : list (Promise T) -> Promise R)
    (stream : LevelUp.ReadStream) (s : S) : S * Promise R :=
  let '(s', promises) := visit onData (LevelUp.data stream) s [] in
  match LevelUp.failure stream with
  | Some e => (s', Rejected e)
  | None => (s', onEnd promises)
  end.

(** [static getAll(hoprPolkadot, onData, onEnd)] *)
Definition getAll {S T R} (hopr : HoprPolkadot)
    (onData : Channel -> S -> S * Promise T)
    (onEnd : list (Promise T) -> Promise R) (s : S) : S * Promise R :=
  getAll_on onData onEnd
    (LevelUp.createReadStream (db hopr) channels_gt channels_lt) s.

(** The settlements that [closeChannels] has started: for each, the
    channel and the promise that [initiateSettlement] returned. *)
Definition Started := list (Channel * Promise unit).

(** The [onData] of [closeChannels]: a block body that calls
    [channel.initiateSettlement()] and returns nothing.  [ledger]
    tells how the settler of a channel is created and what the ledger
    delivers to it. *)
Definition close_on_data (hopr : HoprPolkadot)
    (ledger : Channel -> Promise unit * list Event)
    (channel : Channel) (st : Started) : Started * Promise unit :=
  let '(_, _, p) :=
    initiateSettlement hopr channel (fst (ledger channel)) (snd (ledger channel)) in
  (st ++ [(channel, p)], Resolved tt).

(** The [onEnd] of [closeChannels]. *)
Definition close_on_end (promises : list (Promise unit)) : Promise Balance :=
  then1 (all promises) (fun _ => Resolved 0).

(** [static async closeChannels(hoprPolkadot)] *)
Definition closeChannels (hopr : HoprPolkadot)
    (ledger : Channel -> Promise unit * list Event)
  : Started * Promise Balance :=
  getAll hopr (close_on_data hopr ledger) close_on_end [].

(** What [closeChannels] starts for one entry of the store: the
    settlement of the channel of that entry, with the promise it
    returned. *)
Definition started_for (hopr : HoprPolkadot)
    (ledger : Channel -> Promise unit * list Event)
    (entry : list Z * list Z) : Channel * Promise unit :=
  let c := channel_of entry in
  (c, snd (initiateSettlement hopr c (fst (ledger c)) (snd (ledger c)))).

(** The failures among the settlements started. *)
Fixpoint failures (st : Started) : list Error :=
  match st with
  | [] => []
  | (_, Rejected e) :: rest => e :: failures rest
  | _ :: rest => failures rest
  end.

(** The specification's reading of the result of
    [close_all_channels]: the caller is handed the per-channel
    failures, so a run in which some settlement failed does not end
    in success. *)
Definition reports_failures (out : Started * Promise Balance) : Prop :=
  failures (fst out) <> [] -> exists e, snd out = Rejected e.

(** *** Opening *)

(** The opener of ./open as [create] drives it: how each of its
    operations settles. *)
Record Opener := mkOpener {
  opened : Promise unit;                       (* ChannelOpener.create(...) *)
  increaseFunds : Balance -> Promise unit;
  onceOpen : Promise unit;
  setActive : SignedChannel -> Promise unit
}.

Variable ChannelOpener_create : AccountId -> Hash -> Opener.
Variable SignedChannel_toU8a : SignedChannel -> list Z.

(** [await p] in an async function that carries a state: a rejection of
    [p] rejects the function, with the state as it is. *)
Definition await {S A B} (s : S) (p : Promise A) (k : A -> S * Promise B)
  : S * Promise B :=
  match p with
  | Resolved a => k a
  | Rejected e => (s, Rejected e)
  | Pending => (s, Pending)
  end.

Definition invalid_input : Error := Error_ "Invalid input parameters.".

(** What the local party escrows: its own share of [channelBalance]. *)
Definition own_share (hopr : HoprPolkadot) (counterparty : AccountId)
    (channelBalance : ChannelBalance) : Balance :=
  if utils_isPartyA (self hopr) counterparty
  then Types.balance_a channelBalance
  else Types.balance channelBalance - Types.balance_a channelBalance.

(** [static async create(hoprPolkadot, offChainCounterparty,
    getOnChainPublicKey, channelBalance?, sign?)].  The state is the
    connector (its store) and the amounts passed to [increaseFunds]. *)
Definition create (hopr : HoprPolkadot) (offChainCounterparty : u8a)
    (getOnChainPublicKey : u8a -> Promise u8a)
    (channelBalance : option ChannelBalance)
    (sign : option (ChannelBalance -> Promise SignedChannel))
  : (HoprPolkadot * list Balance) * Promise Channel :=
  await (hopr, []) (getOnChainPublicKey offChainCounterparty) (fun counterparty =>
  await (hopr, []) (utils_getId (self hopr) counterparty) (fun channelId =>
  await (hopr, []) (isOpen hopr counterparty channelId) (fun open =>
  if open then
    await (hopr, []) (LevelUp.get (db hopr) (dbKeys_Channel counterparty)) (fun record =>
    ((hopr, []), Resolved (new counterparty (SignedChannel_decode record))))
  else
    match sign, channelBalance with
    | Some sign, Some channelBalance =>
        let channelOpener := ChannelOpener_create counterparty channelId in
        await (hopr, []) (opened channelOpener) (fun _ =>
        let amount := own_share hopr counterparty channelBalance in
        await (hopr, [amount]) (increaseFunds channelOpener amount) (fun _ =>
        await (hopr, [amount]) (sign channelBalance) (fun signedChannel =>
        await (hopr, [amount])
          (all2 (onceOpen channelOpener)
                (then1 (setActive channelOpener signedChannel) (fun _ => Resolved tt)))
          (fun _ =>
        (({| api := api hopr;
             db := LevelUp.put (db hopr) (dbKeys_Channel counterparty)
                     (SignedChannel_toU8a signedChannel);
             self := self hopr |}, [amount]),
         Resolved (new counterparty signedChannel))))))
    | _, _ => ((hopr, []), Rejected invalid_input)
    end))).

End WithCollaborators.

End Channel.

(* ===================================================================== *)
(** ** Signed tickets (srml_types/signedTicket) *)
(* ===================================================================== *)

Module SignedTicket.

Import Js.

Section WithTicket.

(** The classes [Ticket] (./ticket) and [Signature] (./signature) are
    imported: the ticket type with its encoder [toU8a()] and its
    decoding constructor [new Ticket(registry, bytes)], and the two
    static widths. *)
Variable Ticket : Type.
Variable Ticket_toU8a : Ticket -> u8a.
Variable Ticket_new : u8a -> Ticket.
Variable Ticket_SIZE : nat.
Variable Signature_SIZE : nat.

(** The two alternative arguments of the constructor. *)
Record Arr := mkArr { bytes : u8a; offset : nat }.
Record Struct := mkStruct { signature : u8a; ticket : Ticket }.

(** A [SignedTicket] object: the bytes of the array (it owns its
    buffer, at byte offset 0) and the cached decoded ticket. *)
Record SignedTicket := mkSignedTicket {
  content : u8a;
  _ticket : option Ticket
}.

(** [static get SIZE()] *)
Definition SIZE : nat := Signature_SIZE + Ticket_SIZE.

Definition too_big (excess : nat) : Error :=
  Error_ ("Ticket is too big by " +:+ pretty excess +:+ " elements.").

Definition invalid_arguments : Error :=
  Error_ "Invalid constructor arguments.".

(** [constructor(arr?, struct?)].  In the first branch [arr.bytes] is
    a [Uint8Array]: a typed array built from a typed array is a copy
    of it, whatever the further arguments. *)
Definition constructor (arr : option Arr) (struct : option Struct)
  : Result SignedTicket :=
  match arr, struct with
  | Some a, None => Ok {| content := bytes a; _ticket := None |}
  | None, Some s =>
      let ticket := Ticket_toU8a (ticket s) in
      if (length ticket =? Ticket_SIZE)%nat then
        Ok {| content := u8aConcat [signature s; ticket]; _ticket := None |}
      else if (length ticket <? Ticket_SIZE)%nat then
        Ok {| content :=
                u8aConcat [signature s; ticket; zeros (Ticket_SIZE - length ticket)];
              _ticket := None |}
      else Throw (too_big (length ticket - Ticket_SIZE))
  | _, _ => Throw invalid_arguments
  end.

Definition RangeError : Error := Error_ "RangeError: Invalid typed array length".

(** [subarray(begin, end)]: a view of [end - begin] bytes of the
    buffer from [byteOffset + begin] on, to the end of the buffer
    when [end] is absent. *)
Definition subarray (this : SignedTicket) (begin : nat) (end_ : option nat)
  : Result u8a :=
  match end_ with
  | Some e =>
      if (begin <=? e)%nat && (e <=? length (content this))%nat
      then Ok (take (e - begin) (drop begin (content this)))
      else Throw RangeError
  | None =>
      if (begin <=? length (content this))%nat
      then Ok (drop begin (content this))
      else Throw RangeError
  end.

(** [get ticket()]: decodes on first use and caches. *)
Definition get_ticket (this : SignedTicket) : SignedTicket * Result Ticket :=
  match _ticket this with
  | Some t => (this, Ok t)
  | None =>
      match subarray this Signature_SIZE (Some (Signature_SIZE + Ticket_SIZE)%nat) with
      | Ok region =>
          let t := Ticket_new region in
          ({| content := content this; _ticket := Some t |}, Ok t)
      | Throw e => (this, Throw e)
      end
  end.

End WithTicket.

End SignedTicket.

(* ===================================================================== *)
(** ** The connector (index.ts) *)
(* ===================================================================== *)

Module HoprPolkadot.

Import Js Types.

(** A JavaScript number that holds an integer: integers are exact up to
    2^53 in magnitude; beyond, an integer result is replaced by the
    nearest representable value, ties going to the even mantissa.
    (Overflow to infinity, beyond 2^1024, is left out.) *)
Definition round_double (z : Z) : Z :=
  let m := Z.abs z in
  if m <? 2 ^ 53 then z
  else
    let e := Z.log2 m - 52 in
    let q := m / 2 ^ e in
    let r := m mod 2 ^ e in
    let half := 2 ^ (e - 1) in
    let up := if r <? half then false
              else if half <? r then true
              else Z.odd q in
    Z.sgn z * ((if up then q + 1 else q) * 2 ^ e).

(** The value of [this._nonce] after [this._nonce++]. *)
Definition increment (n : Z) : Z := round_double (n + 1).

(** The private fields of the connector.  [_nonce] is a JavaScript
    number holding an integer ([toNumber()] of the account nonce). *)
Record State := mkState {
  _started : bool;
  _nonce : option Z
}.

(** The continuation of the uncached read once the ledger has answered
    [n]: [this._nonce = n] and then [resolve(this._nonce++)]. *)
Definition nonce_fetched (this : State) (n : Z) : State * Promise Z :=
  ({| _started := _started this; _nonce := Some (increment n) |}, Resolved n).

(** [get nonce()], the same in [HoprPolkadot] and [HoprPolkadotClass].
    With a cached value it is [Promise.resolve(this._nonce++)];
    otherwise the account nonce is queried and the answer handled at
    once. *)
Definition nonce (api : Api) (this : State) : State * Promise Z :=
  match _nonce this with
  | Some n => ({| _started := _started this; _nonce := Some (increment n) |}, Resolved n)
  | None =>
      match query_system_accountNonce api with
      | Resolved n => nonce_fetched this n
      | Rejected e => (this, Rejected e)
      | Pending => (this, Pending)
      end
  end.

(** [k] reads of the getter, one after the other. *)
Fixpoint reads (api : Api) (k : nat) (this : State) : State * list (Promise Z) :=
  match k with
  | O => (this, [])
  | S k' =>
      let '(this1, p) := nonce api this in
      let '(this2, ps) := reads api k' this1 in
      (this2, p :: ps)
  end.

(** [k] fulfilled promises carrying [n], [n + 1], ... *)
Fixpoint consecutive (n : Z) (k : nat) : list (Promise Z) :=
  match k with
  | O => []
  | S k' => Resolved n :: consecutive (n + 1) k'
  end.

End HoprPolkadot.

(* ===================================================================== *)
(** ** The connector: on-chain values, balances (index.ts) *)
(* ===================================================================== *)

Module Connector.

Import Js Types.

(** The [State] that the ledger keeps per account. *)
Record OnChainState := mkOnChainState {
  pubkey : u8a;
  secret : u8a
}.

(** A transaction [api.tx.hopr.init(account, secret)] as it is signed and
    sent, with the nonce option when one is given. *)
Record Tx := mkTx {
  tx_account : Hash;
  tx_secret : u8a;
  tx_nonce : option Z
}.

(** The ledger as the connector sees it: the queries of [Api], the two
    further queries used here, and how a submitted transaction settles. *)
Record Ledger := mkLedger {
  queries : Api;
  query_hopr_states : u8a -> Promise OnChainState;
  query_balances_freeBalance : AccountId -> Promise Balance;
  signAndSend : Tx -> Promise unit
}.

(** The connector object: its private fields, its store, the public key
    of its on-chain key pair, and the transactions it has submitted. *)
Record Node := mkNode {
  fields : HoprPolkadot.State;
  store : gmap (list Z) (list Z);
  publicKey : u8a;
  submitted : list Tx
}.

Section WithUtils.

(** Imported parts: the key of the secret (dbKeys), [hash] and
    [u8aEquals] (utils), the widths [Public.SIZE] and [Hash.SIZE], and
    [createType('Hash', bytes)]. *)
Variable dbKeys_OnChainSecret : list Z.
Variable utils_hash : u8a -> u8a.
Variable utils_u8aEquals : u8a -> u8a -> bool.
Variable Public_SIZE : nat.
Variable Hash_SIZE : nat.
Variable createType_Hash : u8a -> Hash.

Definition not_initialised : Error := Error_ "Module is not yet fully initialised.".

(** [get started()] of [HoprPolkadotClass]. *)
Definition started (this : Node) : Result bool :=
  if negb (HoprPolkadot._started (fields this))
  then Throw not_initialised
  else Ok (HoprPolkadot._started (fields this)).

(** [async start()]: the readiness it awaits is taken to resolve. *)
Definition start (this : Node) : Node * Promise unit :=
  ({| fields := {| HoprPolkadot._started := true;
                   HoprPolkadot._nonce := HoprPolkadot._nonce (fields this) |};
      store := store this;
      publicKey := publicKey this;
      submitted := submitted this |}, Resolved tt).

(** [String(bytes)] of a plain [Uint8Array]: the decimal values of the
    bytes, joined by commas. *)
Fixpoint decimal_text (bs : u8a) : string :=
  match bs with
  | [] => ""
  | b :: rest =>
      match rest with
      | [] => pretty b
      | _ :: _ => pretty b +:+ "," +:+ decimal_text rest
      end
  end.

(** The bytes of a text of ASCII characters. *)
Definition char_codes (s : string) : list Z :=
  map (fun a => Z.of_nat (Ascii.nat_of_ascii a)) (String.list_ascii_of_string s).

(** [this.db.put(OnChainSecret(), secret)]: the secret is handed to the
    store as a plain [Uint8Array], not as a [Buffer], and the store
    keeps the text of such a value. *)
Definition save_secret (this : Node) (secret : u8a) : Node :=
  {| fields := fields this;
     store := LevelUp.put (store this) dbKeys_OnChainSecret
                (char_codes (decimal_text secret));
     publicKey := publicKey this;
     submitted := submitted this |}.

(** [api.tx.hopr.init(createType('Hash', publicKey), secret)
      .signAndSend(pair, { nonce })] *)
Definition send_init (L : Ledger) (this : Node) (secret : u8a) (nonce : option Z)
  : Node * Promise unit :=
  let tx := {| tx_account := createType_Hash (publicKey this);
               tx_secret := secret;
               tx_nonce := nonce |} in
  ({| fields := fields this;
      store := store this;
      publicKey := publicKey this;
      submitted := submitted this ++ [tx] |}, signAndSend L tx).

(** [await this.nonce] on the connector. *)
Definition read_nonce (L : Ledger) (this : Node) : Node * Promise Z :=
  let '(fields', p) := HoprPolkadot.nonce (queries L) (fields this) in
  ({| fields := fields';
      store := store this;
      publicKey := publicKey this;
      submitted := submitted this |}, p).

(** [async initOnchainValues(nonce?)] of [HoprPolkadot]: [random] is the
    value of [randomBytes(32)].  The given nonce is used when it is not
    [null]. *)
Definition initOnchainValues (L : Ledger) (random : u8a) (nonce : option Z)
    (this : Node) : Node * Promise unit :=
  let this1 := save_secret this random in
  let secret := Nat.iter 500 utils_hash random in
  match nonce with
  | Some n =>
      let '(this2, sent) := send_init L this1 secret (Some n) in
      (this2, then1 (all2 sent (Resolved tt)) (fun _ => Resolved tt))
  | None =>
      let '(this2, p) := read_nonce L this1 in
      Channel.await this2 p (fun n =>
        let '(this3, sent) := send_init L this2 secret (Some n) in
        (this3, then1 (all2 sent (Resolved tt)) (fun _ => Resolved tt)))
  end.

(** Truthiness of an optional number: [undefined] and [0] are falsy. *)
Definition truthy_number (n : option Z) : bool :=
  match n with
  | Some k => negb (k =? 0)
  | None => false
  end.

(** [async initOnchainValues(nonce?)] of [HoprPolkadotClass]: it reads
    [this.started] first, hashes 1000 times, and takes the nonce as
    [nonce || (await this.nonce)]. *)
Definition Class_initOnchainValues (L : Ledger) (random : u8a) (nonce : option Z)
    (this : Node) : Node * Promise unit :=
  match started this with
  | Throw e => (this, Rejected e)
  | Ok _ =>
      let this1 := save_secret this random in
      let secret := Nat.iter 1000 utils_hash random in
      if truthy_number nonce then
        send_init L this1 secret nonce
      else
        let '(this2, p) := read_nonce L this1 in
        Channel.await this2 p (fun n => send_init L this2 secret (Some n))
  end.

Definition insufficient_balance : Error :=
  Error_ "Insufficient balance. Free balance must be greater than requested balance.".

(** [async checkFreeBalance(newBalance)] of [HoprPolkadotClass]. *)
Definition checkFreeBalance (L : Ledger) (this : Node) (newBalance : Balance)
  : Promise unit :=
  then1 (query_balances_freeBalance L (publicKey this)) (fun balance =>
    if balance <? newBalance then Rejected insufficient_balance else Resolved tt).

Definition key_without_secret : Error :=
  Error_ "Key is present on-chain but not in our database.".

(** The [try] of [checkOnChainValues]: the stored secret, or its absence
    when the lookup fails with [notFound] equal to [true]. *)
Definition stored_secret (this : Node) : Promise (option u8a) :=
  then2 (LevelUp.get (store this) dbKeys_OnChainSecret)
    (fun secret => Resolved (Some secret))
    (fun err =>
       match notFound err with
       | Some true => Resolved None
       | _ => Rejected err
       end).

(** [const onChain = !u8aEquals(state.pubkey, zeros) ||
                     !u8aEquals(state.secret, zeros)] *)
Definition has_key (state : OnChainState) : bool :=
  negb (utils_u8aEquals (pubkey state) (zeros Public_SIZE))
  || negb (utils_u8aEquals (secret state) (zeros Hash_SIZE)).

(** [async function checkOnChainValues(api, db, keyPair)] *)
Definition checkOnChainValues (L : Ledger) (this : Node) : Node * Promise bool :=
  Channel.await this (stored_secret this) (fun found =>
  let offChain := match found with Some _ => true | None => false end in
  let secret := match found with Some s => s | None => [] end in
  Channel.await this (query_hopr_states L (publicKey this)) (fun state =>
  let onChain := has_key state in
  if negb (eqb offChain onChain) then
    if offChain then
      let '(this1, sent) := send_init L this secret None in
      Channel.await this1 sent (fun _ => (this1, Resolved (offChain && onChain)))
    else (this, Rejected key_without_secret)
  else (this, Resolved (offChain && onChain)))).

End WithUtils.

End Connector.

(* ===================================================================== *)
(** ** Concrete collaborators and inputs *)
(* ===================================================================== *)

(** Stand-ins for the imported parts, and small inputs, on which the
    results below are exercised. *)
Module Sample.

Import Js Types.

Definition Channel_key (a : AccountId) : list Z := 1 :: a.
Definition ChannelKeyParse (k : list Z) : AccountId := tail k.
Definition Challenge_key (cid h : Hash) : list Z := 2 :: cid ++ h.
Definition ChallengeKeyParse (k : list Z) : Hash * Hash :=
  (take 2 (tail k), drop 2 (tail k)).
Definition Nonce_key (cid h : Hash) : list Z := 3 :: cid ++ h.
Definition isPartyA (a b : AccountId) : bool := LevelUp.key_ltb a b.
Definition getId (a b : AccountId) : Promise Hash :=
  Resolved (if isPartyA a b then a ++ b else b ++ a).
Definition xor2 (a b : u8a) : u8a := zip_with Z.lxor a b.
Definition u8aXOR (parts : list u8a) : u8a :=
  match parts with
  | [] => []
  | p :: ps => fold_left xor2 ps p
  end.
Definition decode (v : list Z) : SignedChannel :=
  {| channel := Active {| balance := nth 0 v 0; balance_a := nth 1 v 0 |};
     signer := drop 2 v |}.
Definition digest (msg key : u8a) (len : nat) : u8a := take len (msg ++ key ++ repeat 0 len).

Definition alice : AccountId := [10].
Definition bob : AccountId := [20].

(** A ledger on which the channel is active with balances 60 of 100. *)
Definition ledger : Api :=
  {| query_hopr_channels := fun _ => Resolved (Some (Active {| balance := 100; balance_a := 60 |}));
     query_hopr_pendingWindow := Resolved 5;
     query_system_accountNonce := Resolved 7 |}.

(** A ledger that cannot be reached. *)
Definition unreachable : Api :=
  {| query_hopr_channels := fun _ => Rejected (Error_ "disconnected");
     query_hopr_pendingWindow := Rejected (Error_ "disconnected");
     query_system_accountNonce := Rejected (Error_ "disconnected") |}.

(** A store holding the channel with [bob] and one challenge of it. *)
Definition store : gmap (list Z) (list Z) :=
  <[Channel_key bob := [100; 60; 9]]>
    (<[Challenge_key [10; 20] [3; 4] := [5; 6]]> ∅).

Definition node : Channel.HoprPolkadot :=
  {| Channel.api := ledger; Channel.db := store; Channel.self := alice |}.

Definition with_bob : Channel.Channel :=
  Channel.new bob (decode [100; 60; 9]).

(** The same channel object once its identifier has been computed. *)
Definition with_bob_known : Channel.Channel :=
  {| Channel.counterparty := bob;
     Channel._signedChannel := Some (decode [100; 60; 9]);
     Channel._settlementWindow := None;
     Channel._channelId := Some [10; 20] |}.

(** A ledger on which the settler of every channel fails to be
    created. *)
Definition failing (c : Channel.Channel) : Promise unit * list Channel.Event :=
  (Rejected (Error_ "settlement failed"), []).


(** A connector that has not read its nonce yet. *)
Definition fresh : HoprPolkadot.State :=
  {| HoprPolkadot._started := true; HoprPolkadot._nonce := None |}.

(** A ticket of two one-byte fields, in a ticket region of four bytes:
    the decoder reads the first two bytes. *)
Definition Ticket : Type := (Z * Z)%type.
Definition toU8a (t : Ticket) : u8a := [fst t; snd t].
Definition fromU8a (bs : u8a) : Ticket := (nth 0 bs 0, nth 1 bs 0).
Definition Ticket_SIZE : nat := 4.
Definition Signature_SIZE : nat := 3.

(** A connector on which the ledger holds no channel and the store is
    empty, and one whose ledger cannot be reached although the store
    holds the channel with [bob]. *)
Definition vacant : Api :=
  {| query_hopr_channels := fun _ => Resolved None;
     query_hopr_pendingWindow := Resolved 5;
     query_system_accountNonce := Resolved 7 |}.

Definition newcomer : Channel.HoprPolkadot :=
  {| Channel.api := vacant; Channel.db := ∅; Channel.self := alice |}.

Definition cut_off : Channel.HoprPolkadot :=
  {| Channel.api := unreachable; Channel.db := store; Channel.self := alice |}.

(** An opener on which every operation resolves, an encoder of signed
    channels, a counterparty that signs any balance, and the lookup of
    the on-chain key of [bob]. *)
Definition opener (counterparty : AccountId) (channelId : Hash) : Channel.Opener :=
  {| Channel.opened := Resolved tt;
     Channel.increaseFunds := fun _ => Resolved tt;
     Channel.onceOpen := Resolved tt;
     Channel.setActive := fun _ => Resolved tt |}.

Definition encode (sc : SignedChannel) : list Z :=
  match channel sc with
  | Active b => balance b :: balance_a b :: signer sc
  | _ => []
  end.

Definition countersign (b : ChannelBalance) : Promise SignedChannel :=
  Resolved {| channel := Active b; signer := [9] |}.

Definition key_of (offChain : u8a) : Promise u8a := Resolved bob.

(** The channel object after its settlement window has been read. *)
Definition with_bob_window : Channel.Channel :=
  {| Channel.counterparty := bob;
     Channel._signedChannel := Some (decode [100; 60; 9]);
     Channel._settlementWindow := Some 5;
     Channel._channelId := None |}.

(** A channel object whose state is [Uninitialized]. *)
Definition blank : Channel.Channel :=
  Channel.new bob {| channel := Uninitialized; signer := [] |}.

(** The sample node after the nonce of the signature [1; 2; 3] has been
    stored by some other means. *)
Definition node_with_nonce : Channel.HoprPolkadot :=
  {| Channel.api := ledger;
     Channel.db := <[Nonce_key [10; 20] (digest [1; 2; 3] Channel.NONCE_HASH_KEY 32) := []]> store;
     Channel.self := alice |}.

(** A hash, the key of the secret, a ledger on which the account has no
    key yet and every transaction resolves, and a started connector. *)
Definition hash (bs : u8a) : u8a := map (fun b => (b + 1) mod 256) bs.
Definition u8aEquals (a b : u8a) : bool := bool_decide (a = b).
Definition secret_key : list Z := [0].

Definition chain : Connector.Ledger :=
  {| Connector.queries := ledger;
     Connector.query_hopr_states :=
       fun _ => Resolved {| Connector.pubkey := [0; 0]; Connector.secret := [0; 0] |};
     Connector.query_balances_freeBalance := fun _ => Resolved 50;
     Connector.signAndSend := fun _ => Resolved tt |}.

Definition connector : Connector.Node :=
  {| Connector.fields := fresh;
     Connector.store := ∅;
     Connector.publicKey := alice;
     Connector.submitted := [] |}.

Definition connector_with_secret : Connector.Node :=
  {| Connector.fields := fresh;
     Connector.store := <[secret_key := [1; 2]]> ∅;
     Connector.publicKey := alice;
     Connector.submitted := [] |}.

End Sample.

(* ===================================================================== *)
(** ** Properties of the store *)
(* ===================================================================== *)

Module LevelUpFacts.

Import Js LevelUp.

Lemma key_ltb_irrefl (k : list Z) : key_ltb k k = false.
Proof.
  induction k as [|x k IH]; simpl; [reflexivity|].
  rewrite Z.ltb_irrefl. exact IH.
Qed.

Lemma key_ltb_asym (a b : list Z) : key_ltb a b = true -> key_ltb b a = false.
Proof.
  revert b. induction a as [|x a IH]; intros [|y b]; simpl; try congruence.
  destruct (Z.ltb_spec x y) as [Hxy|Hxy].
  - intros _. destruct (Z.ltb_spec y x); [lia|].
    destruct (Z.ltb_spec x y); [reflexivity|lia].
  - destruct (Z.ltb_spec y x) as [Hyx|Hyx]; [congruence|].
    apply IH.
Qed.

(** No key lies strictly between a bound and itself. *)
Lemma in_range_same (k : list Z) (e : list Z * list Z) : in_range k k e = false.
Proof.
  unfold in_range. destruct (key_ltb k (fst e)) eqn:Hlt; [|reflexivity].
  simpl. apply key_ltb_asym. exact Hlt.
Qed.

Lemma filter_none {A} (f : A -> bool) (l : list A) :
  (forall x, f x = false) -> List.filter f l = [].
Proof.
  intros Hf. induction l as [|x l IH]; simpl; [reflexivity|].
  rewrite Hf. exact IH.
Qed.

Lemma scan_same_bounds (db : gmap (list Z) (list Z)) (k : list Z) :
  scan db k k = [].
Proof. unfold scan. apply filter_none. apply in_range_same. Qed.

(** The range scan yields exactly the entries of the store whose key
    lies strictly between the bounds. *)
Lemma elem_of_scan (db : gmap (list Z) (list Z)) (gt lt k v : list Z) :
  (k, v) ∈ scan db gt lt <->
  db !! k = Some v /\ key_ltb gt k = true /\ key_ltb k lt = true.
Proof.
  unfold scan. rewrite list_elem_of_In, filter_In, <- list_elem_of_In.
  rewrite merge_sort_Permutation, elem_of_map_to_list.
  unfold in_range. simpl. rewrite andb_true_iff. tauto.
Qed.

End LevelUpFacts.

(* ===================================================================== *)
(** ** Properties of the channel module *)
(* ===================================================================== *)

Module ChannelFacts.

Import Js Types LevelUp Channel.

Section WithCollaborators.

Variable dbKeys_Channel : AccountId -> list Z.
Variable dbKeys_ChannelKeyParse : list Z -> AccountId.
Variable dbKeys_Challenge : Hash -> Hash -> list Z.
Variable dbKeys_ChallengeKeyParse : list Z -> Hash * Hash.
Variable dbKeys_Nonce : Hash -> Hash -> list Z.
Variable utils_getId : AccountId -> AccountId -> Promise Hash.
Variable utils_isPartyA : AccountId -> AccountId -> bool.
Variable utils_u8aXOR : list u8a -> u8a.
Variable SignedChannel_decode : list Z -> SignedChannel.
Variable blake2b : u8a -> u8a -> nat -> u8a.
Variable createType_Hash : u8a -> Hash.
Variable Hash_length : nat.

(** **** The lazily cached getters are stable once they have answered *)

Lemma channelId_cached hopr this this' cid :
  channelId utils_getId hopr this = (this', Resolved cid) ->
  _channelId this' = Some cid.
Proof.
  unfold channelId. destruct (_channelId this) as [id|] eqn:Hid.
  - intros [= <- <-]. exact Hid.
  - destruct (utils_getId _ _); intros [= <- <-]. reflexivity.
Qed.

Lemma channelId_again hopr this this' cid :
  channelId utils_getId hopr this = (this', Resolved cid) ->
  channelId utils_getId hopr this' = (this', Resolved cid).
Proof.
  intros H. apply channelId_cached in H. unfold channelId. rewrite H. reflexivity.
Qed.

Lemma channel_again hopr this this' st :
  channel_ dbKeys_Channel SignedChannel_decode hopr this = (this', Resolved st) ->
  channel_ dbKeys_Channel SignedChannel_decode hopr this' = (this', Resolved st).
Proof.
  unfold channel_. destruct (_signedChannel this) as [sc|] eqn:Hsc.
  - intros [= <- <-]. rewrite Hsc. reflexivity.
  - destruct (LevelUp.get _ _); intros [= <- <-]. reflexivity.
Qed.

(** **** The nonce guard *)

(** C1 (as the code behaves): [testAndSetNonce] looks the nonce up and
    never stores it.  On a channel whose nonce entry for [signature]
    is absent, the call succeeds and leaves the store as it was, and
    a second call with the same signature succeeds as well. *)
Theorem testAndSetNonce_twice hopr this this' cid signature :
  channelId utils_getId hopr this = (this', Resolved cid) ->
  db hopr !! dbKeys_Nonce cid (createType_Hash (blake2b signature NONCE_HASH_KEY 32)) = None ->
  testAndSetNonce dbKeys_Nonce utils_getId blake2b createType_Hash hopr this signature
    = ((hopr, this'), Resolved tt) /\
  testAndSetNonce dbKeys_Nonce utils_getId blake2b createType_Hash hopr this' signature
    = ((hopr, this'), Resolved tt).
Proof.
  intros Hid Habsent.
  assert (Hcall : forall c, channelId utils_getId hopr c = (this', Resolved cid) ->
            testAndSetNonce dbKeys_Nonce utils_getId blake2b createType_Hash hopr c signature
            = ((hopr, this'), Resolved tt)).
  { intros c Hc. unfold testAndSetNonce. rewrite Hc.
    unfold LevelUp.get. rewrite Habsent. reflexivity. }
  split; [apply Hcall; exact Hid | apply Hcall; eapply channelId_again; exact Hid].
Qed.

(** **** isOpen *)

(** The body of [isOpen] yields [true] exactly when the ledger holds an
    initialized channel and the store holds a record; it yields
    [false] when the ledger holds none and the store reports the
    record as not found; and when the two sides differ it rejects
    with the error that names the side holding the channel. *)
Lemma isOpen_on_cases (q : Promise (option ChannelEnum))
    (g : Promise (list Z)) (cid : Hash) :
  let on_ledger := exists c, q = Resolved (Some c) /\ c <> Uninitialized in
  let off_ledger := q = Resolved None \/ q = Resolved (Some Uninitialized) in
  let in_store := exists v, g = Resolved v in
  let off_store := exists e, g = Rejected e /\ notFound e = Some true in
  (isOpen_on q g cid = Resolved true <-> on_ledger /\ in_store) /\
  (off_ledger -> off_store -> isOpen_on q g cid = Resolved false) /\
  (off_ledger -> in_store -> isOpen_on q g cid = Rejected (off_chain_only cid)) /\
  (on_ledger -> off_store -> isOpen_on q g cid = Rejected (on_chain_only cid)).
Proof.
  cbv zeta. split; [split|split; [|split]].
  - unfold isOpen_on, onChain_of, offChain_of, then1, then2, all2.
    destruct q as [[c|]|e|], g as [v|e'|]; simpl;
      try destruct (truthy (notFound e')); try destruct c; simpl;
      try discriminate;
      intros _; (split; [eexists; split; [reflexivity|discriminate] | eexists; reflexivity]).
  - intros [(c & -> & Hc) (v & ->)].
    destruct c; [congruence|reflexivity..].
  - intros [-> | ->] (e & -> & He); unfold isOpen_on, offChain_of; simpl;
      rewrite He; reflexivity.
  - intros [-> | ->] (v & ->); reflexivity.
  - intros (c & -> & Hc) (e & -> & He).
    unfold isOpen_on, offChain_of; simpl. rewrite He.
    destruct c; [congruence|reflexivity..].
Qed.

(** C2: [isOpen] for a counterparty and a channel identifier yields
    [true] exactly when the ledger holds an initialized channel under
    that identifier and the store holds a record under the channel key
    of that counterparty; it yields [false] when the ledger holds none
    (no channel, or an [Uninitialized] one) and the store holds no
    record; and when the two sides differ it rejects, instead of yielding
    a boolean, with the error whose message names the side that holds
    the channel. *)
Theorem isOpen_cross_check hopr (counterparty : AccountId) (cid : Hash) :
  let q := query_hopr_channels (api hopr) cid in
  let record := db hopr !! dbKeys_Channel counterparty in
  let on_ledger := exists c, q = Resolved (Some c) /\ c <> Uninitialized in
  let off_ledger := q = Resolved None \/ q = Resolved (Some Uninitialized) in
  (isOpen dbKeys_Channel hopr counterparty cid = Resolved true
     <-> on_ledger /\ is_Some record) /\
  (off_ledger -> record = None ->
     isOpen dbKeys_Channel hopr counterparty cid = Resolved false) /\
  (off_ledger -> is_Some record ->
     isOpen dbKeys_Channel hopr counterparty cid
       = Rejected (Error_ ("Channel " +:+ u8aToHex cid
                           +:+ " exists off-chain but not on-chain."))) /\
  (on_ledger -> record = None ->
     isOpen dbKeys_Channel hopr counterparty cid
       = Rejected (Error_ ("Channel " +:+ u8aToHex cid
                           +:+ " exists on-chain but not off-chain."))).
Proof.
  cbv zeta. unfold isOpen.
  destruct (isOpen_on_cases (query_hopr_channels (api hopr) cid)
              (LevelUp.get (db hopr) (dbKeys_Channel counterparty)) cid)
    as (Htrue & Hfalse & Hoff & Hon).
  unfold LevelUp.get in *.
  destruct (db hopr !! dbKeys_Channel counterparty) as [v|] eqn:Hrecord.
  - split; [|split; [|split]].
    + rewrite Htrue. split.
      * intros [Hl _]. split; [exact Hl|eauto].
      * intros [Hl _]. split; [exact Hl|eauto].
    + intros _ Hnone. discriminate.
    + intros Hl _. apply Hoff; [exact Hl|eauto].
    + intros _ Hnone. discriminate.
  - split; [|split; [|split]].
    + rewrite Htrue. split.
      * intros [_ [v Hv]]. discriminate.
      * intros [_ [v Hv]]. discriminate.
    + intros Hl _. apply Hfalse; [exact Hl|].
      exists NotFoundError. split; reflexivity.
    + intros _ [v Hv]. discriminate.
    + intros Hl _. apply Hon; [exact Hl|].
      exists NotFoundError. split; reflexivity.
Qed.

(** C9: when the channel query on the ledger rejects, [isOpen] takes
    the channel to be absent on-chain: without a local record it
    yields [false], and with one it rejects with the
    off-chain-but-not-on-chain error, whatever the error of the
    ledger was. *)
Theorem isOpen_ledger_unreachable hopr counterparty cid e :
  query_hopr_channels (api hopr) cid = Rejected e ->
  (db hopr !! dbKeys_Channel counterparty = None ->
   isOpen dbKeys_Channel hopr counterparty cid = Resolved false) /\
  (forall v, db hopr !! dbKeys_Channel counterparty = Some v ->
   isOpen dbKeys_Channel hopr counterparty cid = Rejected (off_chain_only cid)).
Proof.
  intros Hq. unfold isOpen, LevelUp.get. rewrite Hq. split.
  - intros ->. reflexivity.
  - intros v ->. reflexivity.
Qed.

(** **** Balances *)

(** C7: on a channel whose state carries balances with
    [balance_a <= balance], [currentBalance] resolves with
    [balance_a] when the local party is party A and with
    [balance - balance_a] otherwise, and that difference is not
    negative. *)
Theorem currentBalance_shares hopr this this' st b :
  channel_ dbKeys_Channel SignedChannel_decode hopr this = (this', Resolved st) ->
  balances st = Some b ->
  Types.balance_a b <= Types.balance b ->
  currentBalance dbKeys_Channel utils_isPartyA SignedChannel_decode hopr this
    = (this', Resolved (if utils_isPartyA (self hopr) (counterparty this)
                        then Types.balance_a b
                        else Types.balance b - Types.balance_a b)) /\
  0 <= Types.balance b - Types.balance_a b.
Proof.
  intros Hst Hb Hle. split; [|lia].
  pose proof (channel_again _ _ _ _ Hst) as Hst'.
  unfold currentBalance, remainder, Channel.balance, Channel.balance_a.
  destruct (utils_isPartyA _ _).
  - rewrite Hst. destruct st; inversion Hb; subst; reflexivity.
  - rewrite Hst. destruct st; inversion Hb; subst; simpl;
      rewrite Hst'; reflexivity.
Qed.

(** **** Challenges *)

(** C4 (as the code behaves): both bounds of the range scan of
    [getPreviousChallenges] are the same key, so the scan is empty
    whatever the store holds, and the function resolves with the
    empty result without combining any recorded key-half. *)
Theorem getPreviousChallenges_finds_nothing hopr this this' cid :
  channelId utils_getId hopr this = (this', Resolved cid) ->
  getPreviousChallenges dbKeys_Challenge dbKeys_ChallengeKeyParse utils_getId
    utils_u8aXOR createType_Hash Hash_length hopr this
    = (this', Resolved None).
Proof.
  intros Hid. unfold getPreviousChallenges. rewrite Hid.
  unfold createReadStream, challenge_gt, challenge_lt.
  rewrite LevelUpFacts.scan_same_bounds. reflexivity.
Qed.

(** **** Settlement *)

Lemma settle_snoc evs ev : settle (evs ++ [ev]) = deliver (settle evs) ev.
Proof. unfold settle. rewrite fold_left_app. reflexivity. Qed.

Lemma settle_shape evs :
  ((Closure ∉ evs) /\ awaiting_closure (settle evs)) \/
  ((Closure ∈ evs) /\ withdrawn_after_closure (settle evs)).
Proof.
  induction evs as [|ev evs IH] using rev_ind.
  - left. split; [apply not_elem_of_nil | repeat split].
  - rewrite settle_snoc.
    destruct IH as [[Hno (Hw & Hs & Hc & Hl)] | [Hyes (Hw & Hs & Hc & Hl)]];
      destruct ev as [|r].
    + right. split.
      * apply elem_of_app. right. apply list_elem_of_singleton. reflexivity.
      * unfold deliver. rewrite Hw, Hs, Hl. repeat split.
    + left. split.
      * apply not_elem_of_app. split; [exact Hno|].
        rewrite list_elem_of_singleton. discriminate.
      * unfold deliver. repeat split; assumption.
    + right. split.
      * apply elem_of_app. left. exact Hyes.
      * unfold deliver. rewrite Hw, Hs. repeat split; assumption.
    + right. split.
      * apply elem_of_app. left. exact Hyes.
      * unfold deliver. repeat split; assumption.
Qed.

(** An element that closes a list and occurs nowhere before splits
    the list in one way only. *)
Lemma split_at_last (x : Call) (l pre post : list Call) :
  x ∉ l -> pre ++ x :: post = l ++ [x] -> pre = l /\ post = [].
Proof.
  revert pre. induction l as [|a l IH]; intros pre Hx Heq.
  - destruct pre as [|c pre]; simpl in Heq.
    + injection Heq as <-. split; reflexivity.
    + injection Heq as _ Heq. destruct pre; discriminate.
  - apply not_elem_of_cons in Hx as [Hne Hx].
    destruct pre as [|c pre]; simpl in Heq.
    + injection Heq as Heq _. contradiction.
    + injection Heq as -> Heq.
      destruct (IH pre Hx Heq) as [-> ->]. split; reflexivity.
Qed.

Lemma calls_of_initiateSettlement hopr this create evs :
  let cs := snd (fst (initiateSettlement utils_getId hopr this create evs)) in
  cs = [] \/ cs = [CreateCalled] \/ cs = calls (settle evs).
Proof.
  unfold initiateSettlement.
  destruct (channelId utils_getId hopr this) as [this1 [cid|e|]]; simpl; auto.
  destruct (settlementWindow hopr this1) as [this2 [w|e|]]; simpl; auto.
  destruct create; simpl; auto.
Qed.

Lemma withdraw_preceded_by_closure hopr this create evs :
  forall pre post,
    snd (fst (initiateSettlement utils_getId hopr this create evs))
      = pre ++ WithdrawCalled :: post ->
    OnceClosedResolved ∈ pre.
Proof.
  intros pre post Heq.
  assert (Hcases : pre ++ WithdrawCalled :: post = [] \/
                   pre ++ WithdrawCalled :: post = [CreateCalled] \/
                   pre ++ WithdrawCalled :: post
                     = [CreateCalled; OnceClosedCalled; InitCalled] \/
                   pre ++ WithdrawCalled :: post
                     = [CreateCalled; OnceClosedCalled; InitCalled;
                        OnceClosedResolved; WithdrawCalled]).
  { rewrite <- Heq.
    destruct (calls_of_initiateSettlement hopr this create evs) as [H|[H|H]];
      [auto..|].
    cbv zeta in H. rewrite H.
    destruct (settle_shape evs) as [[_ (_ & _ & _ & Hl)]|[_ (_ & _ & _ & Hl)]];
      rewrite Hl; auto. }
  clear Heq.
  destruct Hcases as [H|[H|[H|H]]].
  + destruct pre; discriminate.
  + destruct pre as [|? pre]; [discriminate|]. destruct pre; discriminate.
  + assert (Hin : WithdrawCalled ∈ pre ++ WithdrawCalled :: post).
    { apply elem_of_app. right. apply elem_of_cons. left. reflexivity. }
    rewrite H in Hin.
    rewrite !elem_of_cons, elem_of_nil in Hin.
    destruct Hin as [Hin|[Hin|[Hin|[]]]]; discriminate.
  + destruct (split_at_last WithdrawCalled
                [CreateCalled; OnceClosedCalled; InitCalled; OnceClosedResolved]
                pre post) as [-> _].
    * rewrite !not_elem_of_cons. repeat split; try discriminate.
      apply not_elem_of_nil.
    * exact H.
    * rewrite !elem_of_cons. auto.
Qed.

(** C8: in a settlement driven by [initiateSettlement], whatever the
    ledger delivers, [withdraw] is never called before [onceClosed()]
    has resolved.  Once the settler is created: as long as no closure
    has been delivered, [initiateSettlement] has called [onceClosed()]
    and [init()] and nothing else, its promise is not fulfilled, and a
    [withdraw] attempted on its settler at that point faults with
    [NotYetClosed]; once the closure has been delivered,
    [initiateSettlement] has called [withdraw] right after the
    resolution of [onceClosed()], and the withdrawal is made. *)
Theorem withdraw_only_after_closure hopr this create evs :
  let run := initiateSettlement utils_getId hopr this create evs in
  (forall pre post,
      snd (fst run) = pre ++ WithdrawCalled :: post -> OnceClosedResolved ∈ pre) /\
  (forall this1 cid this2 w,
      channelId utils_getId hopr this = (this1, Resolved cid) ->
      settlementWindow hopr this1 = (this2, Resolved w) ->
      create = Resolved tt ->
      (Closure ∉ evs ->
         snd (fst run) = [CreateCalled; OnceClosedCalled; InitCalled] /\
         (forall u, snd run <> Resolved u) /\
         snd (ChannelSettler.withdraw (settler (settle evs)))
           = Rejected ChannelSettler.NotYetClosed) /\
      (Closure ∈ evs ->
         snd (fst run) = [CreateCalled; OnceClosedCalled; InitCalled;
                          OnceClosedResolved; WithdrawCalled] /\
         ChannelSettler.withdrawn (settler (settle evs)) = true /\
         snd run = then1 (initiating (settle evs)) (fun _ => Resolved tt))).
Proof.
  cbv zeta. split; [apply withdraw_preceded_by_closure|].
  intros this1 cid this2 w Hid Hw ->.
  unfold initiateSettlement. rewrite Hid, Hw. simpl. split.
  - intros Hno.
    destruct (settle_shape evs) as [[_ (_ & Hs & Hc & Hl)]|[Hyes _]]; [|contradiction].
    rewrite Hl, Hc, Hs. split; [reflexivity|]. split; [|reflexivity].
    intros u. destruct (initiating (settle evs)); discriminate.
  - intros Hyes.
    destruct (settle_shape evs) as [[Hno _]|[_ (_ & Hs & Hc & Hl)]]; [contradiction|].
    rewrite Hl, Hc, Hs. split; [reflexivity|]. split; [reflexivity|].
    destruct (initiating (settle evs)) as [[]| |]; reflexivity.
Qed.

(** **** Closing every channel *)

Lemma visit_close hopr ledger entries st ps :
  visit dbKeys_ChannelKeyParse SignedChannel_decode
        (close_on_data utils_getId hopr ledger) entries st ps
  = (st ++ map (started_for dbKeys_ChannelKeyParse utils_getId SignedChannel_decode hopr ledger) entries,
     ps ++ map (fun _ => Resolved tt) entries).
Proof.
  revert st ps. induction entries as [|e entries IH]; intros st ps; simpl.
  - rewrite !app_nil_r. reflexivity.
  - unfold close_on_data at 1.
    destruct (initiateSettlement utils_getId hopr _ _ _) as [[c cs] p] eqn:Hini.
    rewrite IH. unfold started_for at 2. rewrite Hini. simpl.
    rewrite <- !app_assoc. reflexivity.
Qed.

(** [closeChannels] calls [initiateSettlement] on the
    channel of every entry that the store holds in the channel
    range, in key order, each with its own ledger events only; what
    happens to one settlement changes neither which settlements are
    started nor how the others settle. *)
Lemma closeChannels_starts_every_settlement hopr ledger :
  let lo := channels_gt dbKeys_Channel createType_Hash Hash_length in
  let hi := channels_lt dbKeys_Channel createType_Hash Hash_length in
  let started :=
    fst (closeChannels dbKeys_Channel dbKeys_ChannelKeyParse utils_getId
           SignedChannel_decode createType_Hash Hash_length hopr ledger) in
  started = map (started_for dbKeys_ChannelKeyParse utils_getId SignedChannel_decode hopr ledger) (scan (db hopr) lo hi) /\
  (forall key value,
      db hopr !! key = Some value ->
      key_ltb lo key = true -> key_ltb key hi = true ->
      started_for dbKeys_ChannelKeyParse utils_getId SignedChannel_decode hopr ledger (key, value) ∈ started).
Proof.
  cbv zeta.
  assert (Hst : fst (closeChannels dbKeys_Channel dbKeys_ChannelKeyParse utils_getId
           SignedChannel_decode createType_Hash Hash_length hopr ledger)
         = map (started_for dbKeys_ChannelKeyParse utils_getId SignedChannel_decode hopr ledger)
               (scan (db hopr)
                  (channels_gt dbKeys_Channel createType_Hash Hash_length)
                  (channels_lt dbKeys_Channel createType_Hash Hash_length))).
  { unfold closeChannels, getAll, getAll_on, createReadStream. simpl.
    rewrite visit_close. reflexivity. }
  split; [exact Hst|].
  intros key value Hkv Hlo Hhi. rewrite Hst.
  apply list_elem_of_fmap_2.
  apply LevelUpFacts.elem_of_scan. auto.
Qed.

End WithCollaborators.

End ChannelFacts.

(* ===================================================================== *)
(** ** Properties of signed tickets *)
(* ===================================================================== *)

Module SignedTicketFacts.

Import Js SignedTicket.

Section WithTicket.

Variable Ticket : Type.
Variable Ticket_toU8a : Ticket -> u8a.
Variable Ticket_new : u8a -> Ticket.
Variable Ticket_SIZE : nat.
Variable Signature_SIZE : nat.

Local Abbreviation make := (constructor Ticket Ticket_toU8a Ticket_SIZE None).
Local Abbreviation padded t :=
  (Ticket_toU8a t ++ zeros (Ticket_SIZE - length (Ticket_toU8a t))).

(** The bytes of a signed ticket built from a signature and a ticket
    that fits. *)
Lemma constructor_content (s : Struct Ticket) :
  (length (Ticket_toU8a (ticket Ticket s)) <= Ticket_SIZE)%nat ->
  make (Some s)
    = Ok {| content := signature Ticket s ++ padded (ticket Ticket s);
            _ticket := None |}.
Proof.
  intros Hfit. unfold constructor, u8aConcat.
  destruct (Nat.eqb_spec (length (Ticket_toU8a (ticket Ticket s))) Ticket_SIZE) as [Heq|Hne].
  - rewrite Heq, Nat.sub_diag. simpl. rewrite !app_nil_r. reflexivity.
  - destruct (Nat.ltb_spec (length (Ticket_toU8a (ticket Ticket s))) Ticket_SIZE); [|lia].
    simpl. rewrite app_nil_r. reflexivity.
Qed.

Lemma padded_length (t : Ticket) :
  (length (Ticket_toU8a t) <= Ticket_SIZE)%nat ->
  length (padded t) = Ticket_SIZE.
Proof.
  intros Hfit. unfold zeros. rewrite length_app, repeat_length. lia.
Qed.

(** C6: built from a signature of the signature width and a ticket,
    the constructor throws the too-big error when the encoded ticket
    is longer than the ticket width; otherwise the encoding is
    followed by zero bytes up to that width, and every signed ticket
    so constructed is exactly [SIZE] bytes long. *)
Theorem constructor_fixed_width (s : Struct Ticket) :
  length (signature Ticket s) = Signature_SIZE ->
  let encoded := Ticket_toU8a (ticket Ticket s) in
  ((Ticket_SIZE < length encoded)%nat ->
     make (Some s) = Throw (too_big (length encoded - Ticket_SIZE))) /\
  ((length encoded <= Ticket_SIZE)%nat ->
     exists st, make (Some s) = Ok st /\
       content Ticket st
         = signature Ticket s ++ encoded ++ zeros (Ticket_SIZE - length encoded)) /\
  (forall st, make (Some s) = Ok st ->
     length (content Ticket st) = SIZE Ticket_SIZE Signature_SIZE).
Proof.
  intros Hsig encoded. split; [|split].
  - intros Hbig. unfold constructor. fold encoded.
    destruct (Nat.eqb_spec (length encoded) Ticket_SIZE); [lia|].
    destruct (Nat.ltb_spec (length encoded) Ticket_SIZE); [lia|]. reflexivity.
  - intros Hfit. eexists. split; [apply constructor_content; exact Hfit|].
    reflexivity.
  - intros st Hst.
    destruct (Nat.le_gt_cases (length encoded) Ticket_SIZE) as [Hfit|Hbig].
    + rewrite (constructor_content s Hfit) in Hst. injection Hst as <-. simpl.
      rewrite length_app, padded_length by exact Hfit. unfold SIZE. lia.
    + exfalso. revert Hst. unfold constructor. fold encoded.
      destruct (Nat.eqb_spec (length encoded) Ticket_SIZE); [lia|].
      destruct (Nat.ltb_spec (length encoded) Ticket_SIZE); [lia|]. discriminate.
Qed.

(** C5: for a ticket decoder that recovers a ticket from its
    encoding followed by zero bytes, and a ticket whose encoding is
    no longer than the ticket width, reading the [ticket] field of
    the signed ticket built from a signature and that ticket gives
    the ticket back, padded or not. *)
Theorem ticket_round_trip (sig : u8a) (t : Ticket) :
  (forall t' n, Ticket_new (Ticket_toU8a t' ++ zeros n) = t') ->
  length sig = Signature_SIZE ->
  (length (Ticket_toU8a t) <= Ticket_SIZE)%nat ->
  exists st,
    make (Some {| signature := sig; ticket := t |}) = Ok st /\
    snd (get_ticket Ticket Ticket_new Ticket_SIZE Signature_SIZE st) = Ok t.
Proof.
  intros Hdec Hsig Hfit. eexists. split.
  - apply constructor_content. exact Hfit.
  - unfold get_ticket, subarray. simpl.
    rewrite length_app, padded_length, Hsig by exact Hfit.
    destruct (Nat.leb_spec Signature_SIZE (Signature_SIZE + Ticket_SIZE)); [|lia].
    destruct (Nat.leb_spec (Signature_SIZE + Ticket_SIZE) (Signature_SIZE + Ticket_SIZE)); [|lia].
    simpl.
    replace (Signature_SIZE + Ticket_SIZE - Signature_SIZE)%nat with Ticket_SIZE by lia.
    rewrite <- Hsig, drop_app_length.
    rewrite firstn_all2 by (rewrite padded_length by exact Hfit; lia).
    rewrite Hdec. reflexivity.
Qed.

End WithTicket.

End SignedTicketFacts.

(* ===================================================================== *)
(** ** Properties of the connector *)
(* ===================================================================== *)

Module HoprPolkadotFacts.

Import Js Types HoprPolkadot.

(** Inside the exact range an increment adds one. *)
Lemma increment_exact (n : Z) :
  0 <= n < 2 ^ 53 -> increment n = n + 1.
Proof.
  intros Hn. unfold increment, round_double.
  rewrite Z.abs_eq by lia.
  destruct (Z.ltb_spec (n + 1) (2 ^ 53)) as [Hlt|Hge]; [reflexivity|].
  assert (Heq : n + 1 = 2 ^ 53) by lia. rewrite Heq. reflexivity.
Qed.


Lemma reads_cached api k : forall this n,
  _nonce this = Some n ->
  0 <= n -> n + Z.of_nat k <= 2 ^ 53 ->
  snd (reads api k this) = consecutive n k.
Proof.
  induction k as [|k IH]; intros this n Hn Hpos Hmax; simpl; [reflexivity|].
  unfold nonce. rewrite Hn.
  destruct (reads api k _) as [this2 ps] eqn:Hrest. simpl.
  f_equal. change ps with (snd (this2, ps)). rewrite <- Hrest.
  apply IH.
  - simpl. f_equal. apply increment_exact. lia.
  - lia.
  - lia.
Qed.




End HoprPolkadotFacts.

(* ===================================================================== *)
(** ** The results on concrete inputs *)
(* ===================================================================== *)

Module Checked.

Import Js Types LevelUp Channel.

(** The nonce guard on the sample node: the same signature passes
    twice. *)
Lemma testAndSetNonce_twice_witness :
  testAndSetNonce Sample.Nonce_key Sample.getId Sample.digest id
    Sample.node Sample.with_bob [1; 2; 3]
    = ((Sample.node, Sample.with_bob_known), Resolved tt) /\
  testAndSetNonce Sample.Nonce_key Sample.getId Sample.digest id
    Sample.node Sample.with_bob_known [1; 2; 3]
    = ((Sample.node, Sample.with_bob_known), Resolved tt).
Proof.
  apply ChannelFacts.testAndSetNonce_twice with (cid := [10; 20]).
  - reflexivity.
  - vm_compute. reflexivity.
Defined.

(** [isOpen] on the sample node, where ledger and store both hold the
    channel with [bob], and for [alice]'s own key, of which the store
    holds no record. *)
Lemma isOpen_cross_check_witness :
  isOpen Sample.Channel_key Sample.node Sample.bob [10; 20] = Resolved true /\
  isOpen Sample.Channel_key Sample.node Sample.alice [10; 10]
  = Rejected (Error_ "Channel 0x0a0a exists on-chain but not off-chain.").
Proof.
  split.
  - apply (ChannelFacts.isOpen_cross_check Sample.Channel_key Sample.node
             Sample.bob [10; 20]).
    split.
    + eexists. split; [reflexivity|discriminate].
    + eexists. vm_compute. reflexivity.
  - apply (ChannelFacts.isOpen_cross_check Sample.Channel_key Sample.node
             Sample.alice [10; 10]).
    + eexists. split; [reflexivity|discriminate].
    + vm_compute. reflexivity.
Defined.

(** [isOpen] on the sample store when the ledger cannot be reached. *)
Lemma isOpen_ledger_unreachable_witness :
  isOpen Sample.Channel_key
    {| api := Sample.unreachable; db := Sample.store; self := Sample.alice |}
    Sample.bob [10; 20]
  = Rejected (off_chain_only [10; 20]).
Proof.
  eapply (ChannelFacts.isOpen_ledger_unreachable Sample.Channel_key
            {| api := Sample.unreachable; db := Sample.store; self := Sample.alice |}
            Sample.bob [10; 20]).
  - reflexivity.
  - vm_compute. reflexivity.
Defined.

(** The balance of the local party on the sample channel. *)
Lemma currentBalance_shares_witness :
  currentBalance Sample.Channel_key Sample.isPartyA Sample.decode
    Sample.node Sample.with_bob
  = (Sample.with_bob, Resolved 60) /\ 0 <= 100 - 60.
Proof.
  apply (ChannelFacts.currentBalance_shares Sample.Channel_key Sample.isPartyA
           Sample.decode Sample.node Sample.with_bob Sample.with_bob
           (Active {| Types.balance := 100; Types.balance_a := 60 |})
           {| Types.balance := 100; Types.balance_a := 60 |}).
  - reflexivity.
  - reflexivity.
  - simpl. lia.
Defined.

(** The sample store holds a challenge of the channel, and
    [getPreviousChallenges] resolves with the empty result. *)
Lemma getPreviousChallenges_finds_nothing_witness :
  Sample.store !! Sample.Challenge_key [10; 20] [3; 4] = Some [5; 6] /\
  getPreviousChallenges Sample.Challenge_key Sample.ChallengeKeyParse Sample.getId
    Sample.u8aXOR id 2%nat Sample.node Sample.with_bob
  = (Sample.with_bob_known, Resolved None).
Proof.
  split.
  - vm_compute. reflexivity.
  - apply ChannelFacts.getPreviousChallenges_finds_nothing with (cid := [10; 20]).
    reflexivity.
Defined.

(** The settlement of the sample channel when the closure arrives after
    [init()] has settled. *)
Lemma withdraw_only_after_closure_witness :
  snd (fst (initiateSettlement Sample.getId Sample.node Sample.with_bob (Resolved tt)
              [InitSettled (Resolved tt); Closure]))
  = [CreateCalled; OnceClosedCalled; InitCalled; OnceClosedResolved; WithdrawCalled] /\
  ChannelSettler.withdrawn (settler (settle [InitSettled (Resolved tt); Closure])) = true /\
  snd (initiateSettlement Sample.getId Sample.node Sample.with_bob (Resolved tt)
         [InitSettled (Resolved tt); Closure])
  = then1 (initiating (settle [InitSettled (Resolved tt); Closure]))
          (fun _ => Resolved tt).
Proof.
  eapply (ChannelFacts.withdraw_only_after_closure Sample.getId Sample.node
            Sample.with_bob (Resolved tt) [InitSettled (Resolved tt); Closure]).
  - reflexivity.
  - reflexivity.
  - reflexivity.
  - apply list_elem_of_further, list_elem_of_here.
Defined.

(** C3 (as the code behaves): on the sample store, with a ledger on
    which the settlement of the one stored channel fails, [closeChannels]
    starts that settlement, whose promise is rejected, and resolves with
    the balance 0: the failure of the channel is not reported to the
    caller. *)
Lemma closeChannels_hides_failure :
  closeChannels Sample.Channel_key Sample.ChannelKeyParse Sample.getId
    Sample.decode id 2%nat Sample.node Sample.failing
  = ([(Sample.with_bob, Rejected (Error_ "settlement failed"))], Resolved 0) /\
  ~ reports_failures
      (closeChannels Sample.Channel_key Sample.ChannelKeyParse Sample.getId
         Sample.decode id 2%nat Sample.node Sample.failing).
Proof.
  split; [vm_compute; reflexivity|].
  unfold reports_failures. intros Hreports.
  destruct Hreports as [e He].
  - vm_compute. discriminate.
  - vm_compute in He. discriminate.
Qed.

(** The settlement of the stored channel is among those started. *)
Lemma closeChannels_starts_every_settlement_witness :
  started_for Sample.ChannelKeyParse Sample.getId Sample.decode
    Sample.node Sample.failing (Sample.Channel_key Sample.bob, [100; 60; 9])
  ∈ fst (closeChannels Sample.Channel_key Sample.ChannelKeyParse Sample.getId
           Sample.decode id 2%nat Sample.node Sample.failing).
Proof.
  apply (ChannelFacts.closeChannels_starts_every_settlement Sample.Channel_key
           Sample.ChannelKeyParse Sample.getId Sample.decode id 2%nat
           Sample.node Sample.failing).
  - vm_compute. reflexivity.
  - reflexivity.
  - reflexivity.
Defined.

(** A ticket of two bytes in a region of four: padded, and read back. *)
Lemma ticket_round_trip_witness :
  exists st,
    SignedTicket.constructor Sample.Ticket Sample.toU8a Sample.Ticket_SIZE None
      (Some {| SignedTicket.signature := [1; 2; 3]; SignedTicket.ticket := (7, 8) |})
    = Ok st /\
    snd (SignedTicket.get_ticket Sample.Ticket Sample.fromU8a
           Sample.Ticket_SIZE Sample.Signature_SIZE st) = Ok (7, 8).
Proof.
  apply (SignedTicketFacts.ticket_round_trip Sample.Ticket Sample.toU8a
           Sample.fromU8a Sample.Ticket_SIZE Sample.Signature_SIZE [1; 2; 3] (7, 8)).
  - intros [a b] n. reflexivity.
  - reflexivity.
  - unfold Sample.Ticket_SIZE. simpl. lia.
Defined.

(** The same ticket is followed by two zero bytes. *)
Lemma constructor_fixed_width_witness :
  exists st,
    SignedTicket.constructor Sample.Ticket Sample.toU8a Sample.Ticket_SIZE None
      (Some {| SignedTicket.signature := [1; 2; 3]; SignedTicket.ticket := (7, 8) |})
    = Ok st /\
    SignedTicket.content Sample.Ticket st = [1; 2; 3] ++ [7; 8] ++ [0; 0].
Proof.
  apply (SignedTicketFacts.constructor_fixed_width Sample.Ticket Sample.toU8a
           Sample.Ticket_SIZE Sample.Signature_SIZE
           {| SignedTicket.signature := [1; 2; 3]; SignedTicket.ticket := (7, 8) |}).
  - reflexivity.
  - unfold Sample.Ticket_SIZE. simpl. lia.
Defined.



End Checked.

(* ===================================================================== *)
(** ** Order of the range scan *)
(* ===================================================================== *)

Module LevelUpOrder.

Import Js LevelUp.

Lemma key_le_trans (a b c : list Z) :
  key_ltb b a = false -> key_ltb c b = false -> key_ltb c a = false.
Proof.
  revert b c. induction a as [|x a IH]; intros [|y b] [|z c]; simpl;
    try congruence.
  destruct (Z.ltb_spec y x), (Z.ltb_spec x y), (Z.ltb_spec z y), (Z.ltb_spec y z),
           (Z.ltb_spec z x), (Z.ltb_spec x z);
    try congruence; try lia.
  apply IH.
Qed.

Lemma key_le_total (a b : list Z) : key_ltb b a = false \/ key_ltb a b = false.
Proof.
  destruct (key_ltb b a) eqn:Hba; [right|left; reflexivity].
  apply LevelUpFacts.key_ltb_asym. exact Hba.
Qed.

#[local] Instance entry_le_transitive : Transitive entry_le.
Proof. intros e1 e2 e3. unfold entry_le. apply key_le_trans. Qed.

#[local] Instance entry_le_total : Total entry_le.
Proof. intros e1 e2. unfold entry_le. apply key_le_total. Qed.

Lemma StronglySorted_filter_bool {A} (R : A -> A -> Prop) (f : A -> bool) (l : list A) :
  StronglySorted R l -> StronglySorted R (List.filter f l).
Proof.
  induction 1 as [|x l Hsorted IH Hall]; simpl; [constructor|].
  destruct (f x); [|exact IH].
  constructor; [exact IH|].
  rewrite List.Forall_forall in *. intros y Hy.
  apply Hall. apply filter_In in Hy. tauto.
Qed.

(** The entries of a range scan come in ascending key order: no entry
    has a smaller key than one before it. *)
Lemma scan_sorted (db : gmap (list Z) (list Z)) (gt lt : list Z) :
  StronglySorted entry_le (scan db gt lt).
Proof.
  unfold scan. apply StronglySorted_filter_bool.
  apply StronglySorted_merge_sort; apply _.
Qed.

(** Each key occurs once in a range scan. *)
Lemma scan_keys_NoDup (db : gmap (list Z) (list Z)) (gt lt : list Z) :
  NoDup (map fst (scan db gt lt)).
Proof.
  unfold scan.
  assert (Hsub : forall l : list (list Z * list Z),
             NoDup (map fst l) -> NoDup (map fst (List.filter (in_range gt lt) l))).
  { induction l as [|e l IH]; simpl; [auto|]. intros Hnd.
    apply NoDup_cons in Hnd as [Hnotin Hnd].
    destruct (in_range gt lt e); [|auto].
    simpl. apply NoDup_cons. split; [|auto].
    intros Hin. apply Hnotin.
    apply list_elem_of_fmap in Hin as (e' & -> & He').
    apply list_elem_of_fmap_2.
    apply list_elem_of_In, filter_In in He'. apply list_elem_of_In. tauto. }
  apply Hsub.
  assert (Hperm : map fst (merge_sort entry_le (map_to_list db))
                  ≡ₚ map fst (map_to_list db)).
  { apply fmap_Permutation, merge_sort_Permutation. }
  rewrite Hperm. apply NoDup_fst_map_to_list.
Qed.

End LevelUpOrder.

(* ===================================================================== *)
(** ** Further properties of the channel module *)
(* ===================================================================== *)

Module ChannelMore.

Import Js Types LevelUp Channel.

Section WithCollaborators.

Variable dbKeys_Channel : AccountId -> list Z.
Variable dbKeys_ChannelKeyParse : list Z -> AccountId.
Variable dbKeys_Nonce : Hash -> Hash -> list Z.
Variable utils_getId : AccountId -> AccountId -> Promise Hash.
Variable utils_isPartyA : AccountId -> AccountId -> bool.
Variable SignedChannel_decode : list Z -> SignedChannel.
Variable SignedChannel_toU8a : SignedChannel -> list Z.
Variable ChannelOpener_create : AccountId -> Hash -> Opener.
Variable blake2b : u8a -> u8a -> nat -> u8a.
Variable createType_Hash : u8a -> Hash.
Variable Hash_length : nat.

(** **** Cached getters *)

(** X1: once [channelId] has resolved, the identifier is kept on the
    channel object: every later read resolves with the same identifier
    and leaves the object as it is, whatever [utils.getId] or the
    connector would now answer. *)
Theorem channelId_memoized hopr this this' cid :
  channelId utils_getId hopr this = (this', Resolved cid) ->
  forall getId' hopr', channelId getId' hopr' this' = (this', Resolved cid).
Proof.
  intros H getId' hopr'.
  apply (ChannelFacts.channelId_cached utils_getId) in H.
  unfold channelId. rewrite H. reflexivity.
Qed.

(** X2: once [settlementWindow] has resolved, the window is kept on the
    channel object: later reads resolve with the same value without
    asking the ledger, even if the ledger's pending window has changed. *)
Theorem settlementWindow_memoized hopr this this' w :
  settlementWindow hopr this = (this', Resolved w) ->
  forall hopr', settlementWindow hopr' this' = (this', Resolved w).
Proof.
  unfold settlementWindow. intros H hopr'.
  destruct (_settlementWindow this) as [w0|] eqn:Hw.
  - injection H as <- <-. rewrite Hw. reflexivity.
  - destruct (query_hopr_pendingWindow (api hopr)); inversion H; subst.
    reflexivity.
Qed.

(** **** Balances *)

(** X3: on a channel whose state carries balances, the balance of the
    local party and the balance of the counterparty both resolve, and
    they add up to the total balance of the channel. *)
Theorem balances_add_up hopr this this' st b :
  channel_ dbKeys_Channel SignedChannel_decode hopr this = (this', Resolved st) ->
  balances st = Some b ->
  exists mine theirs,
    currentBalance dbKeys_Channel utils_isPartyA SignedChannel_decode hopr this
      = (this', Resolved mine) /\
    currentBalanceOfCounterparty dbKeys_Channel utils_isPartyA SignedChannel_decode
      hopr this = (this', Resolved theirs) /\
    mine + theirs = Types.balance b.
Proof.
  intros Hst Hb.
  pose proof (ChannelFacts.channel_again _ _ _ _ _ _ Hst) as Hst'.
  assert (Ha : Channel.balance_a dbKeys_Channel SignedChannel_decode hopr this
               = (this', Resolved (Types.balance_a b))).
  { unfold Channel.balance_a. rewrite Hst.
    destruct st; inversion Hb; subst; reflexivity. }
  assert (Hr : remainder dbKeys_Channel SignedChannel_decode hopr this
               = (this', Resolved (Types.balance b - Types.balance_a b))).
  { unfold remainder, Channel.balance, Channel.balance_a. rewrite Hst.
    destruct st; inversion Hb; subst; simpl; rewrite Hst'; reflexivity. }
  unfold currentBalance, currentBalanceOfCounterparty.
  destruct (utils_isPartyA _ _); simpl; rewrite Ha, Hr.
  - exists (Types.balance_a b), (Types.balance b - Types.balance_a b).
    repeat split. lia.
  - exists (Types.balance b - Types.balance_a b), (Types.balance_a b).
    repeat split. lia.
Qed.

(** X4: on a channel whose state is [Uninitialized], [currentBalance]
    rejects with the invalid-state error when the local party is party
    A, and never settles when it is party B (the exception is raised
    inside the promise executor, which neither resolves nor rejects). *)
Theorem currentBalance_uninitialized hopr this this' :
  channel_ dbKeys_Channel SignedChannel_decode hopr this
    = (this', Resolved Uninitialized) ->
  snd (currentBalance dbKeys_Channel utils_isPartyA SignedChannel_decode hopr this)
    = (if utils_isPartyA (self hopr) (counterparty this)
       then Rejected (Error_ "Invalid state. Got 'Uninitialized'")
       else Pending).
Proof.
  intros Hst.
  unfold currentBalance, remainder, Channel.balance, Channel.balance_a.
  rewrite Hst. destruct (utils_isPartyA _ _); reflexivity.
Qed.

(** **** isOpen and the nonce guard *)

(** X5: when the lookup of the local record fails with an error that is
    not a not-found error, [isOpen] rejects with that error, whatever
    the ledger answers. *)
Theorem isOpen_store_error (q : Promise (option ChannelEnum)) (e : Error) (cid : Hash) :
  truthy (notFound e) = false ->
  isOpen_on q (Rejected e) cid = Rejected e.
Proof.
  intros He. unfold isOpen_on, offChain_of, onChain_of. simpl. rewrite He.
  destruct q as [[[]|]|?|]; reflexivity.
Qed.

(** X6: when the store already holds an entry under the nonce key of a
    signature, [testAndSetNonce] rejects with the error "Nonces must not
    be used twice." and leaves the store as it is. *)
Theorem testAndSetNonce_stored hopr this this' cid signature v :
  channelId utils_getId hopr this = (this', Resolved cid) ->
  db hopr !! dbKeys_Nonce cid (createType_Hash (blake2b signature NONCE_HASH_KEY 32))
    = Some v ->
  testAndSetNonce dbKeys_Nonce utils_getId blake2b createType_Hash hopr this signature
    = ((hopr, this'), Rejected (Error_ "Nonces must not be used twice.")).
Proof.
  intros Hid Hv. unfold testAndSetNonce. rewrite Hid.
  unfold LevelUp.get. rewrite Hv. reflexivity.
Qed.

(** **** Enumeration *)

Lemma visit_record entries : forall (log : list Channel) (ps : list (Promise unit)),
  visit dbKeys_ChannelKeyParse SignedChannel_decode
        (fun c (l : list Channel) => (l ++ [c], Resolved tt)) entries log ps
  = (log ++ map (channel_of dbKeys_ChannelKeyParse SignedChannel_decode) entries,
     ps ++ map (fun _ => Resolved tt) entries).
Proof.
  induction entries as [|e entries IH]; intros log ps; simpl.
  - rewrite !app_nil_r. reflexivity.
  - rewrite IH, <- !app_assoc. reflexivity.
Qed.

(** X7: [getAll] calls [onData] once for each entry of the store whose
    key lies strictly between the two channel bounds, and for no other;
    the calls are made in ascending key order, and each key is visited
    once. *)
Theorem getAll_visits_in_key_order {R} hopr (onEnd : list (Promise unit) -> Promise R) :
  let lo := channels_gt dbKeys_Channel createType_Hash Hash_length in
  let hi := channels_lt dbKeys_Channel createType_Hash Hash_length in
  exists entries,
    fst (getAll dbKeys_Channel dbKeys_ChannelKeyParse SignedChannel_decode
           createType_Hash Hash_length hopr
           (fun c (l : list Channel) => (l ++ [c], Resolved tt)) onEnd [])
      = map (channel_of dbKeys_ChannelKeyParse SignedChannel_decode) entries /\
    (forall k v, (k, v) ∈ entries <->
                 db hopr !! k = Some v /\ key_ltb lo k = true /\ key_ltb k hi = true) /\
    StronglySorted (fun e1 e2 => key_ltb (fst e2) (fst e1) = false) entries /\
    NoDup (map fst entries).
Proof.
  cbv zeta.
  exists (scan (db hopr) (channels_gt dbKeys_Channel createType_Hash Hash_length)
                         (channels_lt dbKeys_Channel createType_Hash Hash_length)).
  split; [|split; [|split]].
  - unfold getAll, getAll_on, createReadStream. simpl.
    rewrite visit_record. reflexivity.
  - intros k v. apply LevelUpFacts.elem_of_scan.
  - apply LevelUpOrder.scan_sorted.
  - apply LevelUpOrder.scan_keys_NoDup.
Qed.

End WithCollaborators.

End ChannelMore.

(* ===================================================================== *)
(** ** Further properties of settlement *)
(* ===================================================================== *)

Module SettlementMore.

Import Js Types LevelUp Channel.

Section WithCollaborators.

Variable utils_getId : AccountId -> AccountId -> Promise Hash.

(** How [init()] has settled after some events: as the first event that
    settles it says. *)
Lemma initiating_kept evs : forall d,
  initiating d <> Pending ->
  initiating (fold_left deliver evs d) = initiating d.
Proof.
  induction evs as [|ev evs IH]; intros d Hd; simpl; [reflexivity|].
  rewrite IH.
  - destruct ev as [|r]; unfold deliver; simpl.
    + destruct (waiting d); reflexivity.
    + destruct (initiating d); congruence.
  - destruct ev as [|r]; unfold deliver; simpl.
    + destruct (waiting d); exact Hd.
    + destruct (initiating d); congruence.
Qed.

Lemma initiating_pending evs : forall d,
  initiating d = Pending ->
  (forall r, InitSettled r ∈ evs -> r = Pending) ->
  initiating (fold_left deliver evs d) = Pending.
Proof.
  induction evs as [|ev evs IH]; intros d Hd Hall; simpl; [exact Hd|].
  apply IH.
  - destruct ev as [|r]; unfold deliver; simpl.
    + destruct (waiting d); exact Hd.
    + rewrite Hd. apply Hall. apply list_elem_of_here.
  - intros r Hr. apply Hall. apply list_elem_of_further. exact Hr.
Qed.

Lemma fold_deliver_app evs1 evs2 d :
  fold_left deliver (evs1 ++ evs2) d = fold_left deliver evs2 (fold_left deliver evs1 d).
Proof. apply fold_left_app. Qed.

Lemma initiating_first pre r post :
  (forall r', InitSettled r' ∈ pre -> r' = Pending) ->
  r <> Pending ->
  initiating (settle (pre ++ InitSettled r :: post)) = r.
Proof.
  intros Hpre Hr. unfold settle. rewrite fold_deliver_app. simpl.
  rewrite initiating_kept.
  - unfold deliver at 1. simpl.
    rewrite (initiating_pending pre started eq_refl Hpre). reflexivity.
  - unfold deliver at 1. simpl.
    rewrite (initiating_pending pre started eq_refl Hpre). exact Hr.
Qed.

Lemma closing_cases evs :
  closing (settle evs) = Pending \/ closing (settle evs) = Resolved tt.
Proof.
  destruct (ChannelFacts.settle_shape evs) as [[_ (_ & _ & Hc & _)]|[_ (_ & _ & Hc & _)]];
    auto.
Qed.

(** X9: [initiateSettlement] does not touch the settler unless both the
    channel identifier and the settlement window are available: when
    either of the two getters rejects, it rejects with that error and no
    settler operation has been called; when the settler cannot be
    created, it rejects with that error after the creation attempt
    only. *)
Theorem initiateSettlement_prerequisites hopr this create evs :
  (forall this1 e,
      channelId utils_getId hopr this = (this1, Rejected e) ->
      initiateSettlement utils_getId hopr this create evs = (this1, [], Rejected e)) /\
  (forall this1 cid this2 e,
      channelId utils_getId hopr this = (this1, Resolved cid) ->
      settlementWindow hopr this1 = (this2, Rejected e) ->
      initiateSettlement utils_getId hopr this create evs = (this2, [], Rejected e)) /\
  (forall this1 cid this2 w e,
      channelId utils_getId hopr this = (this1, Resolved cid) ->
      settlementWindow hopr this1 = (this2, Resolved w) ->
      create = Rejected e ->
      initiateSettlement utils_getId hopr this create evs
        = (this2, [CreateCalled], Rejected e)).
Proof.
  repeat split.
  - intros this1 e Hid. unfold initiateSettlement. rewrite Hid. reflexivity.
  - intros this1 cid this2 e Hid Hw. unfold initiateSettlement.
    rewrite Hid, Hw. reflexivity.
  - intros this1 cid this2 w e Hid Hw ->. unfold initiateSettlement.
    rewrite Hid, Hw. reflexivity.
Qed.

(** X10: the promise of [initiateSettlement] is never fulfilled before
    the channel is closed: as long as no closure has been delivered, it
    is pending or rejected. *)
Theorem initiateSettlement_not_before_closure hopr this create evs :
  Closure ∉ evs ->
  forall u, snd (initiateSettlement utils_getId hopr this create evs) <> Resolved u.
Proof.
  intros Hno u. unfold initiateSettlement.
  destruct (channelId utils_getId hopr this) as [this1 [cid|e|]]; simpl; try discriminate.
  destruct (settlementWindow hopr this1) as [this2 [w|e|]]; simpl; try discriminate.
  destruct create; simpl; try discriminate.
  destruct (ChannelFacts.settle_shape evs) as [[_ (_ & _ & Hc & _)]|[Hyes _]];
    [|contradiction].
  rewrite Hc. destruct (initiating (settle evs)); discriminate.
Qed.

(** X11: once the settler is created, [initiateSettlement] is fulfilled
    when the closure has been delivered and [init()] has resolved, in
    either order; by then the withdrawal has been made. *)
Theorem initiateSettlement_resolves hopr this this1 cid this2 w pre post :
  channelId utils_getId hopr this = (this1, Resolved cid) ->
  settlementWindow hopr this1 = (this2, Resolved w) ->
  (forall r, InitSettled r ∈ pre -> r = Pending) ->
  Closure ∈ pre ++ post ->
  initiateSettlement utils_getId hopr this (Resolved tt)
    (pre ++ InitSettled (Resolved tt) :: post)
  = (this2,
     [CreateCalled; OnceClosedCalled; InitCalled; OnceClosedResolved; WithdrawCalled],
     Resolved tt).
Proof.
  intros Hid Hw Hpre Hclosure. unfold initiateSettlement. rewrite Hid, Hw.
  rewrite initiating_first by (auto; discriminate).
  destruct (ChannelFacts.settle_shape (pre ++ InitSettled (Resolved tt) :: post))
    as [[Hno _]|[_ (_ & _ & Hc & Hl)]].
  - exfalso. apply Hno. rewrite elem_of_app, elem_of_cons.
    apply elem_of_app in Hclosure as [?|?]; auto.
  - rewrite Hc, Hl. reflexivity.
Qed.

(** X12: when the transaction of [init()] is rejected, the promise of
    [initiateSettlement] is rejected with the same error, whether or not
    the channel gets closed and the withdrawal is made. *)
Theorem initiateSettlement_init_rejected hopr this this1 cid this2 w pre post e :
  channelId utils_getId hopr this = (this1, Resolved cid) ->
  settlementWindow hopr this1 = (this2, Resolved w) ->
  (forall r, InitSettled r ∈ pre -> r = Pending) ->
  snd (initiateSettlement utils_getId hopr this (Resolved tt)
         (pre ++ InitSettled (Rejected e) :: post))
  = Rejected e.
Proof.
  intros Hid Hw Hpre. unfold initiateSettlement. rewrite Hid, Hw. simpl.
  rewrite initiating_first by (auto; discriminate).
  destruct (closing_cases (pre ++ InitSettled (Rejected e) :: post)) as [-> | ->];
    reflexivity.
Qed.

End WithCollaborators.

End SettlementMore.

(* ===================================================================== *)
(** ** Properties of channel creation *)
(* ===================================================================== *)

Module OpeningFacts.

Import Js Types LevelUp Channel.

Section WithCollaborators.

Variable dbKeys_Channel : AccountId -> list Z.
Variable utils_getId : AccountId -> AccountId -> Promise Hash.
Variable utils_isPartyA : AccountId -> AccountId -> bool.
Variable SignedChannel_decode : list Z -> SignedChannel.
Variable ChannelOpener_create : AccountId -> Hash -> Opener.
Variable SignedChannel_toU8a : SignedChannel -> list Z.

Lemma isOpen_true_stored hopr cp cid :
  isOpen dbKeys_Channel hopr cp cid = Resolved true ->
  exists record, db hopr !! dbKeys_Channel cp = Some record.
Proof.
  unfold isOpen, LevelUp.get.
  destruct (db hopr !! dbKeys_Channel cp) as [record|]; [eauto|].
  destruct (query_hopr_channels (api hopr) cid) as [[[]|]|?|]; discriminate.
Qed.

(** X13: when the channel with the counterparty is already open (ledger
    and store agree), [create] resolves with the channel of the stored
    record: the opener is not used, nothing is escrowed and the store is
    left as it is, with or without a balance and a signing function. *)
Theorem create_loads_open_channel hopr offChain getKey channelBalance sign cp cid :
  getKey offChain = Resolved cp ->
  utils_getId (self hopr) cp = Resolved cid ->
  isOpen dbKeys_Channel hopr cp cid = Resolved true ->
  exists record,
    db hopr !! dbKeys_Channel cp = Some record /\
    create dbKeys_Channel utils_getId utils_isPartyA SignedChannel_decode
      ChannelOpener_create SignedChannel_toU8a hopr offChain getKey channelBalance sign
      = ((hopr, []), Resolved (new cp (SignedChannel_decode record))).
Proof.
  intros Hkey Hid Hopen.
  destruct (isOpen_true_stored _ _ _ Hopen) as [record Hrecord].
  exists record. split; [exact Hrecord|].
  unfold create, await. rewrite Hkey, Hid, Hopen.
  unfold LevelUp.get. rewrite Hrecord. reflexivity.
Qed.

Ltac walk :=
  repeat match goal with
         | |- context [match ?x with _ => _ end] => destruct x eqn:?; simpl
         end.

(** X14: [create] changes the store only when it succeeds: whenever its
    promise is rejected or left pending (the ledger and the store
    disagree, the arguments are missing, the funding, the signature or
    the activation fails), the connector is as it was before. *)
Theorem create_writes_only_on_success hopr offChain getKey channelBalance sign
    hopr' funded p :
  create dbKeys_Channel utils_getId utils_isPartyA SignedChannel_decode
      ChannelOpener_create SignedChannel_toU8a hopr offChain getKey channelBalance sign = ((hopr', funded), p) ->
  (forall c, p <> Resolved c) ->
  hopr' = hopr.
Proof.
  unfold create, await. walk; intros [= <- <- <-] Hp;
    try reflexivity; exfalso; eapply Hp; reflexivity.
Qed.

(** X15: when the channel is not open and [create] succeeds, a balance
    and a signing function were given, the local party escrowed exactly
    its own share of that balance, the on-chain opening and the
    activation with the signed channel both resolved, and the signed
    channel is now stored under the channel key of the counterparty,
    where a lookup finds it. *)
Theorem create_opens_channel hopr offChain getKey channelBalance sign cp cid
    hopr' funded c :
  getKey offChain = Resolved cp ->
  utils_getId (self hopr) cp = Resolved cid ->
  isOpen dbKeys_Channel hopr cp cid = Resolved false ->
  create dbKeys_Channel utils_getId utils_isPartyA SignedChannel_decode
      ChannelOpener_create SignedChannel_toU8a hopr offChain getKey channelBalance sign = ((hopr', funded), Resolved c) ->
  exists balance signFn signedChannel,
    channelBalance = Some balance /\
    sign = Some signFn /\
    signFn balance = Resolved signedChannel /\
    funded = [own_share utils_isPartyA hopr cp balance] /\
    onceOpen (ChannelOpener_create cp cid) = Resolved tt /\
    setActive (ChannelOpener_create cp cid) signedChannel = Resolved tt /\
    c = new cp signedChannel /\
    db hopr' = <[dbKeys_Channel cp := SignedChannel_toU8a signedChannel]> (db hopr) /\
    LevelUp.get (db hopr') (dbKeys_Channel cp)
      = Resolved (SignedChannel_toU8a signedChannel).
Proof.
  intros Hkey Hid Hopen. unfold create, await. rewrite Hkey, Hid, Hopen.
  destruct sign as [signFn|]; [|discriminate].
  destruct channelBalance as [balance|]; [|discriminate].
  destruct (opened (ChannelOpener_create cp cid)); try discriminate.
  destruct (increaseFunds (ChannelOpener_create cp cid) _); try discriminate.
  destruct (signFn balance) as [signedChannel| |] eqn:Hsign; try discriminate.
  destruct (onceOpen (ChannelOpener_create cp cid)) as [[]| |] eqn:Honce;
    destruct (setActive (ChannelOpener_create cp cid) signedChannel) as [[]| |] eqn:Hactive;
    simpl; try discriminate.
  intros [= <- <- <-].
  exists balance, signFn, signedChannel. simpl.
  repeat split; try assumption.
  unfold LevelUp.get, LevelUp.put. rewrite lookup_insert_eq. reflexivity.
Qed.

End WithCollaborators.

End OpeningFacts.

(* ===================================================================== *)
(** ** Further properties of the connector *)
(* ===================================================================== *)

Module ConnectorFacts.

Import Js Types Connector.

(** **** The nonce getter *)

(** X16: starting with an empty cache on a ledger whose account nonce is
    [n], [k] reads of the nonce getter return [n], [n + 1], ...,
    [n + k - 1]: the ledger's value first, then one more at each read,
    as long as the counter stays within the integers that a JavaScript
    number holds exactly ([n + k <= 2^53]). *)
Theorem nonce_reads_from_ledger api this n k :
  HoprPolkadot._nonce this = None ->
  query_system_accountNonce api = Resolved n ->
  0 <= n ->
  n + Z.of_nat k <= 2 ^ 53 ->
  snd (HoprPolkadot.reads api k this) = HoprPolkadot.consecutive n k.
Proof.
  intros Hnone Hq Hpos Hmax. destruct k as [|k]; [reflexivity|].
  simpl. unfold HoprPolkadot.nonce, HoprPolkadot.nonce_fetched. rewrite Hnone, Hq.
  destruct (HoprPolkadot.reads api k _) as [this2 ps] eqn:Hrest. simpl.
  f_equal. change ps with (snd (this2, ps)). rewrite <- Hrest.
  apply HoprPolkadotFacts.reads_cached; [|lia|lia].
  simpl. f_equal. apply HoprPolkadotFacts.increment_exact. lia.
Qed.

(** X17: while the account nonce cannot be read from the ledger, every
    read of the nonce getter is rejected with the ledger's error and the
    cache stays empty, so that the next read asks the ledger again. *)
Theorem nonce_reads_rejected api this e k :
  HoprPolkadot._nonce this = None ->
  query_system_accountNonce api = Rejected e ->
  HoprPolkadot.reads api k this = (this, repeat (Rejected e) k).
Proof.
  intros Hnone Hq. induction k as [|k IH]; [reflexivity|].
  simpl. unfold HoprPolkadot.nonce. rewrite Hnone, Hq, IH. reflexivity.
Qed.

(** X18: two reads that both find the cache empty each set the counter
    from the ledger's answer when that answer arrives.  If the second
    answer arrives after [k] further reads, the second read returns the
    nonce [n] that the first had returned, and the read after it returns
    [n + 1] again (the counter staying within the integers that a
    JavaScript number holds exactly, [n + 1 + k <= 2^53]). *)
Theorem nonce_overlapping_reads_repeat api this n k :
  0 <= n ->
  n + 1 + Z.of_nat k <= 2 ^ 53 ->
  let '(this1, first) := HoprPolkadot.nonce_fetched this n in
  let '(this2, between) := HoprPolkadot.reads api k this1 in
  let '(this3, second) := HoprPolkadot.nonce_fetched this2 n in
  first = Resolved n /\
  between = HoprPolkadot.consecutive (n + 1) k /\
  second = Resolved n /\
  snd (HoprPolkadot.nonce api this3) = Resolved (n + 1).
Proof.
  intros Hpos Hmax. unfold HoprPolkadot.nonce_fetched.
  destruct (HoprPolkadot.reads api k _) as [this2 between] eqn:Hreads.
  assert (Hinc : HoprPolkadot.increment n = n + 1)
    by (apply HoprPolkadotFacts.increment_exact; lia).
  split; [reflexivity|]. split; [|split; [reflexivity|]].
  - change between with (snd (this2, between)). rewrite <- Hreads.
    apply HoprPolkadotFacts.reads_cached; [|lia|lia].
    simpl. f_equal. exact Hinc.
  - unfold HoprPolkadot.nonce. simpl. rewrite Hinc. reflexivity.
Qed.

Section WithUtils.

Variable dbKeys_OnChainSecret : list Z.
Variable utils_hash : u8a -> u8a.
Variable utils_u8aEquals : u8a -> u8a -> bool.
Variable Public_SIZE : nat.
Variable Hash_SIZE : nat.
Variable createType_Hash : u8a -> Hash.

Local Abbreviation init_tx this secret nonce :=
  {| tx_account := createType_Hash (publicKey this);
     tx_secret := secret;
     tx_nonce := nonce |}.

(** **** Initialising the on-chain values *)

(** X19: when [initOnchainValues] of [HoprPolkadot] resolves, the store
    holds under the secret key the text of the random secret (its
    decimal byte values joined by commas, which is what the store keeps
    of the plain [Uint8Array] it is given), and exactly one transaction
    has been submitted, which resolved and carries the 500-fold hash of
    the secret's bytes. *)
Theorem initOnchainValues_secret_chain L random nonce this this' :
  initOnchainValues dbKeys_OnChainSecret utils_hash createType_Hash L random nonce this
    = (this', Resolved tt) ->
  LevelUp.get (store this') dbKeys_OnChainSecret
    = Resolved (char_codes (decimal_text random)) /\
  exists n,
    submitted this'
      = submitted this ++ [init_tx this (Nat.iter 500 utils_hash random) (Some n)] /\
    signAndSend L (init_tx this (Nat.iter 500 utils_hash random) (Some n)) = Resolved tt.
Proof.
  unfold initOnchainValues, send_init, read_nonce, save_secret, Channel.await.
  set (secret := Nat.iter 500 utils_hash random).
  destruct nonce as [n|]; cbn -[Nat.iter].
  - destruct (signAndSend L _) as [[]| |] eqn:Hsent; cbn -[Nat.iter];
      intros [= <-]; cbn -[Nat.iter].
    split.
    + unfold LevelUp.get, LevelUp.put. rewrite lookup_insert_eq. reflexivity.
    + exists n. split; [reflexivity|exact Hsent].
  - destruct (HoprPolkadot.nonce (queries L) (fields this)) as [fields' [n| |]];
      cbn -[Nat.iter]; try discriminate.
    destruct (signAndSend L _) as [[]| |] eqn:Hsent; cbn -[Nat.iter];
      intros [= <-]; cbn -[Nat.iter].
    split.
    + unfold LevelUp.get, LevelUp.put. rewrite lookup_insert_eq. reflexivity.
    + exists n. split; [reflexivity|exact Hsent].
Qed.

(** X20: [initOnchainValues] of [HoprPolkadotClass] rejects with "Module
    is not yet fully initialised." on a connector that has not been
    started, leaving the connector as it is: no secret is stored and no
    transaction submitted; and when it resolves, the connector was
    started and exactly one transaction has been submitted, which
    carries the 1000-fold hash of the random secret. *)
Theorem Class_initOnchainValues_started L random nonce this :
  (HoprPolkadot._started (fields this) = false ->
   Class_initOnchainValues dbKeys_OnChainSecret utils_hash createType_Hash
     L random nonce this
   = (this, Rejected (Error_ "Module is not yet fully initialised."))) /\
  (forall this',
   Class_initOnchainValues dbKeys_OnChainSecret utils_hash createType_Hash
     L random nonce this = (this', Resolved tt) ->
   HoprPolkadot._started (fields this) = true /\
   exists n,
     submitted this'
       = submitted this ++ [init_tx this (Nat.iter 1000 utils_hash random) (Some n)]).
Proof.
  split.
  - intros Hoff. unfold Class_initOnchainValues, started. rewrite Hoff. reflexivity.
  - intros this'.
    unfold Class_initOnchainValues, started, send_init, read_nonce, save_secret,
      Channel.await.
    set (secret := Nat.iter 1000 utils_hash random).
    destruct (HoprPolkadot._started (fields this)) eqn:Hstarted; cbn -[Nat.iter];
      [|discriminate].
    destruct (truthy_number nonce) eqn:Hnonce.
    + destruct nonce as [n|]; [|discriminate]. cbn -[Nat.iter].
      intros [= <- _]. cbn -[Nat.iter]. split; [reflexivity|].
      exists n. reflexivity.
    + destruct (HoprPolkadot.nonce (queries L) (fields this)) as [fields' [n| |]];
        cbn -[Nat.iter]; try discriminate.
      intros [= <- _]. cbn -[Nat.iter]. split; [reflexivity|].
      exists n. reflexivity.
Qed.

(** X21: a nonce of 0 given by the caller.  [HoprPolkadot] sends the
    transaction with nonce 0 and leaves its nonce counter alone;
    [HoprPolkadotClass], which takes [nonce || (await this.nonce)],
    ignores the 0, sends the transaction with the next value of its
    counter and advances the counter. *)
Theorem manual_nonce_zero L random this fields' v :
  HoprPolkadot._started (fields this) = true ->
  HoprPolkadot.nonce (queries L) (fields this) = (fields', Resolved v) ->
  let this_A :=
    fst (initOnchainValues dbKeys_OnChainSecret utils_hash createType_Hash
           L random (Some 0) this) in
  let this_B :=
    fst (Class_initOnchainValues dbKeys_OnChainSecret utils_hash createType_Hash
           L random (Some 0) this) in
  (fields this_A = fields this /\
   submitted this_A
     = submitted this ++ [init_tx this (Nat.iter 500 utils_hash random) (Some 0)]) /\
  (fields this_B = fields' /\
   submitted this_B
     = submitted this ++ [init_tx this (Nat.iter 1000 utils_hash random) (Some v)]).
Proof.
  intros Hstarted Hnonce. cbv zeta. split.
  - unfold initOnchainValues, send_init, save_secret. simpl. split; reflexivity.
  - unfold Class_initOnchainValues, started, send_init, read_nonce, save_secret,
      Channel.await.
    rewrite Hstarted. simpl. rewrite Hnonce. simpl. split; reflexivity.
Qed.

(** **** Balances and on-chain values *)

(** X22: [checkFreeBalance] resolves exactly when the free balance is at
    least the requested balance (an equal balance passes), and rejects
    with the insufficient-balance error when it is smaller. *)
Theorem checkFreeBalance_threshold L this free requested :
  query_balances_freeBalance L (publicKey this) = Resolved free ->
  (checkFreeBalance L this requested = Resolved tt <-> requested <= free) /\
  (free < requested ->
   checkFreeBalance L this requested = Rejected insufficient_balance).
Proof.
  intros Hq. unfold checkFreeBalance. rewrite Hq. simpl.
  destruct (Z.ltb_spec free requested); split; try split;
    try discriminate; try reflexivity; try lia.
Qed.

(** X23: [checkOnChainValues], once the ledger has returned the state of
    the account.  With a stored secret and a key on-chain it resolves
    with [true]; with neither, with [false]; with a key on-chain and no
    stored secret it rejects with "Key is present on-chain but not in
    our database."; with a stored secret and no key on-chain it submits
    one transaction that carries the stored secret as it is, without a
    nonce, and resolves with [false] once that transaction has. *)
Theorem checkOnChainValues_cases L this state :
  query_hopr_states L (publicKey this) = Resolved state ->
  let check :=
    checkOnChainValues dbKeys_OnChainSecret utils_u8aEquals Public_SIZE Hash_SIZE
      createType_Hash L this in
  let onChain := has_key utils_u8aEquals Public_SIZE Hash_SIZE state in
  (forall s, store this !! dbKeys_OnChainSecret = Some s -> onChain = true ->
     check = (this, Resolved true)) /\
  (store this !! dbKeys_OnChainSecret = None -> onChain = false ->
     check = (this, Resolved false)) /\
  (store this !! dbKeys_OnChainSecret = None -> onChain = true ->
     check = (this, Rejected (Error_ "Key is present on-chain but not in our database."))) /\
  (forall s : list Z, store this !! dbKeys_OnChainSecret = Some s -> onChain = false ->
     submitted (fst check) = submitted this ++ [init_tx this s None] /\
     store (fst check) = store this /\
     snd check = then1 (signAndSend L (init_tx this s None)) (fun _ => Resolved false)).
Proof.
  intros Hq. cbv zeta.
  unfold checkOnChainValues, stored_secret, Channel.await, LevelUp.get, send_init.
  split; [|split; [|split]].
  - intros s Hs Hon. rewrite Hs. simpl. rewrite Hq, Hon. reflexivity.
  - intros Hs Hon. rewrite Hs. simpl. rewrite Hq, Hon. reflexivity.
  - intros Hs Hon. rewrite Hs. simpl. rewrite Hq, Hon. reflexivity.
  - intros s Hs Hon. rewrite Hs. simpl. rewrite Hq, Hon. simpl.
    destruct (signAndSend L _) as [[]| |]; repeat split.
Qed.

End WithUtils.

End ConnectorFacts.

(* ===================================================================== *)
(** ** Further properties of signed tickets *)
(* ===================================================================== *)

Module SignedTicketMore.

Import Js SignedTicket.

Section WithTicket.

Variable Ticket : Type.
Variable Ticket_toU8a : Ticket -> u8a.
Variable Ticket_new : u8a -> Ticket.
Variable Ticket_SIZE : nat.
Variable Signature_SIZE : nat.

Local Abbreviation make := (constructor Ticket Ticket_toU8a Ticket_SIZE None).
Local Abbreviation padded t :=
  (Ticket_toU8a t ++ zeros (Ticket_SIZE - length (Ticket_toU8a t))).

Lemma constructed_fits (s : Struct Ticket) st :
  make (Some s) = Ok st ->
  (length (Ticket_toU8a (ticket Ticket s)) <= Ticket_SIZE)%nat.
Proof.
  unfold constructor.
  destruct (Nat.eqb_spec (length (Ticket_toU8a (ticket Ticket s))) Ticket_SIZE); [lia|].
  destruct (Nat.ltb_spec (length (Ticket_toU8a (ticket Ticket s))) Ticket_SIZE); [lia|].
  discriminate.
Qed.

(** X24: [subarray] on a range inside the array gives the bytes from
    [begin] up to [end]: as many as [end - begin], the [i]-th being the
    byte at [begin + i]; on a range that is reversed or reaches beyond
    the array it throws a RangeError. *)
Theorem subarray_bounds (this : SignedTicket Ticket) (begin end_ : nat) :
  ((begin <= end_)%nat /\ (end_ <= length (content Ticket this))%nat ->
   exists region : list Z,
     subarray Ticket this begin (Some end_) = Ok region /\
     length region = (end_ - begin)%nat /\
     forall i, (i < end_ - begin)%nat ->
               region !! i = content Ticket this !! (begin + i)%nat) /\
  (~ ((begin <= end_)%nat /\ (end_ <= length (content Ticket this))%nat) ->
   subarray Ticket this begin (Some end_) = Throw RangeError).
Proof.
  unfold subarray.
  destruct (Nat.leb_spec begin end_), (Nat.leb_spec end_ (length (content Ticket this)));
    simpl; split; try (intros [? ?]; lia); try (intros Hn; exfalso; apply Hn; lia);
    try reflexivity.
  intros _. eexists. split; [reflexivity|]. split.
  - rewrite length_take, length_drop. lia.
  - intros i Hi. rewrite lookup_take_lt by exact Hi. apply lookup_drop.
Qed.

(** X25: in a signed ticket built from a signature of the signature
    width and a ticket, the signature and the ticket occupy two
    adjoining regions that make up the whole array: [subarray] from 0 to
    the signature width is the signature, and from there to [SIZE] it is
    the encoded ticket with its padding. *)
Theorem signed_ticket_regions (s : Struct Ticket) st :
  length (signature Ticket s) = Signature_SIZE ->
  make (Some s) = Ok st ->
  subarray Ticket st 0 (Some Signature_SIZE) = Ok (signature Ticket s) /\
  subarray Ticket st Signature_SIZE (Some (SIZE Ticket_SIZE Signature_SIZE))
    = Ok (padded (ticket Ticket s)) /\
  subarray Ticket st 0 None
    = Ok (signature Ticket s ++ padded (ticket Ticket s)).
Proof.
  intros Hsig Hst.
  pose proof (constructed_fits s st Hst) as Hfit.
  rewrite (SignedTicketFacts.constructor_content Ticket Ticket_toU8a Ticket_SIZE s Hfit)
    in Hst.
  injection Hst as <-.
  pose proof (SignedTicketFacts.padded_length Ticket Ticket_toU8a Ticket_SIZE
                (ticket Ticket s) Hfit) as Hpad.
  unfold subarray, SIZE. simpl. rewrite length_app, Hpad, Hsig. split; [|split].
  - destruct (Nat.leb_spec Signature_SIZE (Signature_SIZE + Ticket_SIZE)); [|lia].
    simpl. rewrite Nat.sub_0_r, drop_0, <- Hsig, take_app_length. reflexivity.
  - destruct (Nat.leb_spec Signature_SIZE (Signature_SIZE + Ticket_SIZE)); [|lia].
    destruct (Nat.leb_spec (Signature_SIZE + Ticket_SIZE) (Signature_SIZE + Ticket_SIZE));
      [|lia].
    simpl.
    replace (Signature_SIZE + Ticket_SIZE - Signature_SIZE)%nat with Ticket_SIZE by lia.
    rewrite <- Hsig, drop_app_length, take_ge by lia. reflexivity.
  - reflexivity.
Qed.

(** X26: the [ticket] getter decodes once: after a read that succeeded,
    the decoded ticket is kept on the object, and every later read
    returns that ticket and leaves the object as it is, without decoding
    the bytes again. *)
Theorem get_ticket_memoized (this this' : SignedTicket Ticket) (t : Ticket) :
  get_ticket Ticket Ticket_new Ticket_SIZE Signature_SIZE this = (this', Ok t) ->
  forall decoder,
    get_ticket Ticket decoder Ticket_SIZE Signature_SIZE this' = (this', Ok t).
Proof.
  unfold get_ticket. intros H decoder.
  destruct (_ticket Ticket this) as [t0|] eqn:Hcached.
  - injection H as <- <-. rewrite Hcached. reflexivity.
  - destruct (subarray Ticket this Signature_SIZE _); inversion H; subst.
    reflexivity.
Qed.

End WithTicket.

End SignedTicketMore.

(* ===================================================================== *)
(** ** The further results on concrete inputs *)
(* ===================================================================== *)

Module CheckedMore.

Import Js Types LevelUp Channel.

(** The identifier of the sample channel stays, whatever [getId] would
    now answer. *)
Lemma channelId_memoized_witness :
  channelId (fun _ _ => Rejected (Error_ "offline")) Sample.cut_off Sample.with_bob_known
  = (Sample.with_bob_known, Resolved [10; 20]).
Proof.
  apply (ChannelMore.channelId_memoized Sample.getId Sample.node Sample.with_bob).
  reflexivity.
Defined.

(** The window read on the sample ledger stays when the ledger cannot be
    reached any more. *)
Lemma settlementWindow_memoized_witness :
  settlementWindow Sample.cut_off Sample.with_bob_window
  = (Sample.with_bob_window, Resolved 5).
Proof.
  apply (ChannelMore.settlementWindow_memoized Sample.node Sample.with_bob).
  reflexivity.
Defined.

(** On the sample channel, 60 and 40 add up to 100. *)
Lemma balances_add_up_witness :
  exists mine theirs,
    currentBalance Sample.Channel_key Sample.isPartyA Sample.decode
      Sample.node Sample.with_bob = (Sample.with_bob, Resolved mine) /\
    currentBalanceOfCounterparty Sample.Channel_key Sample.isPartyA Sample.decode
      Sample.node Sample.with_bob = (Sample.with_bob, Resolved theirs) /\
    mine + theirs = 100.
Proof.
  apply (ChannelMore.balances_add_up Sample.Channel_key Sample.isPartyA Sample.decode
           Sample.node Sample.with_bob Sample.with_bob
           (Active {| Types.balance := 100; Types.balance_a := 60 |})
           {| Types.balance := 100; Types.balance_a := 60 |}).
  - reflexivity.
  - reflexivity.
Defined.

(** The local party of the sample node is party A of the blank channel. *)
Lemma currentBalance_uninitialized_witness :
  snd (currentBalance Sample.Channel_key Sample.isPartyA Sample.decode
         Sample.node Sample.blank)
  = Rejected (Error_ "Invalid state. Got 'Uninitialized'").
Proof.
  apply (ChannelMore.currentBalance_uninitialized Sample.Channel_key Sample.isPartyA
           Sample.decode Sample.node Sample.blank Sample.blank).
  reflexivity.
Defined.

(** A read error of the store passes through [isOpen]. *)
Lemma isOpen_store_error_witness :
  isOpen_on (Resolved None) (Rejected (Error_ "IO error")) [171]
  = Rejected (Error_ "IO error").
Proof.
  apply ChannelMore.isOpen_store_error. reflexivity.
Defined.

(** With the nonce of the signature in the store, the signature is
    refused. *)
Lemma testAndSetNonce_stored_witness :
  testAndSetNonce Sample.Nonce_key Sample.getId Sample.digest id
    Sample.node_with_nonce Sample.with_bob [1; 2; 3]
  = ((Sample.node_with_nonce, Sample.with_bob_known),
     Rejected (Error_ "Nonces must not be used twice.")).
Proof.
  apply ChannelMore.testAndSetNonce_stored with (cid := [10; 20]) (v := []).
  - reflexivity.
  - vm_compute. reflexivity.
Defined.

(** Without a closure the settlement of the sample channel is not
    fulfilled. *)
Lemma initiateSettlement_not_before_closure_witness :
  snd (initiateSettlement Sample.getId Sample.node Sample.with_bob (Resolved tt)
         [InitSettled (Resolved tt)])
  <> Resolved tt.
Proof.
  apply SettlementMore.initiateSettlement_not_before_closure.
  rewrite not_elem_of_cons. split; [discriminate|apply not_elem_of_nil].
Defined.

(** The closure first, then the transaction of [init()]. *)
Lemma initiateSettlement_resolves_witness :
  exists this2,
    initiateSettlement Sample.getId Sample.node Sample.with_bob (Resolved tt)
      ([Closure] ++ InitSettled (Resolved tt) :: [])
    = (this2,
       [CreateCalled; OnceClosedCalled; InitCalled; OnceClosedResolved; WithdrawCalled],
       Resolved tt).
Proof.
  eexists.
  eapply (SettlementMore.initiateSettlement_resolves Sample.getId Sample.node
            Sample.with_bob Sample.with_bob_known [10; 20]).
  - reflexivity.
  - reflexivity.
  - intros r Hr. apply elem_of_cons in Hr as [Hr|Hr]; [discriminate|].
    apply elem_of_nil in Hr. contradiction.
  - apply list_elem_of_here.
Defined.

(** The transaction of [init()] is rejected, then the channel closes. *)
Lemma initiateSettlement_init_rejected_witness :
  snd (initiateSettlement Sample.getId Sample.node Sample.with_bob (Resolved tt)
         ([] ++ InitSettled (Rejected (Error_ "bad transaction")) :: [Closure]))
  = Rejected (Error_ "bad transaction").
Proof.
  eapply (SettlementMore.initiateSettlement_init_rejected Sample.getId Sample.node
            Sample.with_bob Sample.with_bob_known [10; 20]).
  - reflexivity.
  - reflexivity.
  - intros r Hr. apply elem_of_nil in Hr. contradiction.
Defined.

(** [create] on the sample node, where the channel with [bob] is open. *)
Lemma create_loads_open_channel_witness :
  exists record,
    Sample.store !! Sample.Channel_key Sample.bob = Some record /\
    create Sample.Channel_key Sample.getId Sample.isPartyA Sample.decode
      Sample.opener Sample.encode Sample.node [99] Sample.key_of None None
    = ((Sample.node, []), Resolved (new Sample.bob (Sample.decode record))).
Proof.
  apply (OpeningFacts.create_loads_open_channel Sample.Channel_key Sample.getId
           Sample.isPartyA Sample.decode Sample.opener Sample.encode
           Sample.node [99] Sample.key_of None None Sample.bob [10; 20]).
  - reflexivity.
  - reflexivity.
  - vm_compute. reflexivity.
Defined.

(** [create] when the ledger cannot be reached and the store holds the
    channel: it is rejected and the connector is as before. *)
Lemma create_writes_only_on_success_witness :
  create Sample.Channel_key Sample.getId Sample.isPartyA Sample.decode
    Sample.opener Sample.encode Sample.cut_off [99] Sample.key_of
    (Some {| Types.balance := 100; Types.balance_a := 60 |}) (Some Sample.countersign)
  = ((Sample.cut_off, []), Rejected (off_chain_only [10; 20])) /\
  Sample.cut_off = Sample.cut_off.
Proof.
  assert (H : create Sample.Channel_key Sample.getId Sample.isPartyA Sample.decode
                Sample.opener Sample.encode Sample.cut_off [99] Sample.key_of
                (Some {| Types.balance := 100; Types.balance_a := 60 |})
                (Some Sample.countersign)
              = ((Sample.cut_off, []), Rejected (off_chain_only [10; 20]))).
  { vm_compute. reflexivity. }
  split; [exact H|].
  apply (OpeningFacts.create_writes_only_on_success _ _ _ _ _ _ _ _ _ _ _ _ _ _ H).
  discriminate.
Defined.

(** [create] on a connector without channels: [alice] escrows 60 of 100
    and the signed channel is stored. *)
Lemma create_opens_channel_witness :
  exists hopr' c,
    create Sample.Channel_key Sample.getId Sample.isPartyA Sample.decode
      Sample.opener Sample.encode Sample.newcomer [99] Sample.key_of
      (Some {| Types.balance := 100; Types.balance_a := 60 |}) (Some Sample.countersign)
    = ((hopr', [60]), Resolved c) /\
    LevelUp.get (db hopr') (Sample.Channel_key Sample.bob) = Resolved [100; 60; 9].
Proof.
  eexists. eexists.
  assert (H : create Sample.Channel_key Sample.getId Sample.isPartyA Sample.decode
                Sample.opener Sample.encode Sample.newcomer [99] Sample.key_of
                (Some {| Types.balance := 100; Types.balance_a := 60 |})
                (Some Sample.countersign)
              = (({| api := Sample.vacant;
                     db := LevelUp.put ∅ (Sample.Channel_key Sample.bob) [100; 60; 9];
                     self := Sample.alice |}, [60]),
                 Resolved (new Sample.bob
                             {| channel := Active {| Types.balance := 100;
                                                     Types.balance_a := 60 |};
                                signer := [9] |}))).
  { reflexivity. }
  split; [exact H|].
  destruct (OpeningFacts.create_opens_channel Sample.Channel_key Sample.getId
              Sample.isPartyA Sample.decode Sample.opener Sample.encode
              Sample.newcomer [99] Sample.key_of _ _ Sample.bob [10; 20] _ _ _
              eq_refl eq_refl eq_refl H)
    as (balance & signFn & sc & Hb & Hs & Hsc & _ & _ & _ & _ & _ & Hget).
  injection Hb as <-. injection Hs as <-. injection Hsc as <-.
  exact Hget.
Defined.

(** Three reads on the sample ledger, whose account nonce is 7. *)
Lemma nonce_reads_from_ledger_witness :
  snd (HoprPolkadot.reads Sample.ledger 3 Sample.fresh)
  = [Resolved 7; Resolved 8; Resolved 9].
Proof.
  apply (ConnectorFacts.nonce_reads_from_ledger Sample.ledger Sample.fresh 7 3).
  - reflexivity.
  - reflexivity.
  - lia.
  - simpl. lia.
Defined.

(** Two overlapping first reads on a ledger whose account nonce is 7,
    with two cached reads in between: 7 is handed out twice, and so is
    8. *)
Lemma nonce_overlapping_reads_repeat_witness :
  let '(this1, first) := HoprPolkadot.nonce_fetched Sample.fresh 7 in
  let '(this2, between) := HoprPolkadot.reads Sample.ledger 2 this1 in
  let '(this3, second) := HoprPolkadot.nonce_fetched this2 7 in
  first = Resolved 7 /\
  between = HoprPolkadot.consecutive (7 + 1) 2 /\
  second = Resolved 7 /\
  snd (HoprPolkadot.nonce Sample.ledger this3) = Resolved (7 + 1).
Proof.
  apply (ConnectorFacts.nonce_overlapping_reads_repeat Sample.ledger Sample.fresh 7 2).
  - lia.
  - simpl. lia.
Defined.

(** Two reads while the ledger cannot be reached. *)
Lemma nonce_reads_rejected_witness :
  HoprPolkadot.reads Sample.unreachable 2 Sample.fresh
  = (Sample.fresh, [Rejected (Error_ "disconnected"); Rejected (Error_ "disconnected")]).
Proof.
  apply (ConnectorFacts.nonce_reads_rejected Sample.unreachable Sample.fresh
           (Error_ "disconnected") 2).
  - reflexivity.
  - reflexivity.
Defined.

(** The secret [1; 2] on the sample connector: stored as the text
    ["1,2"], sent after 500 hashes. *)
Lemma initOnchainValues_secret_chain_witness :
  LevelUp.get
    (Connector.store
       (fst (Connector.initOnchainValues Sample.secret_key Sample.hash id
               Sample.chain [1; 2] None Sample.connector)))
    Sample.secret_key
  = Resolved [49; 44; 50] /\
  exists n,
    Connector.submitted
      (fst (Connector.initOnchainValues Sample.secret_key Sample.hash id
              Sample.chain [1; 2] None Sample.connector))
    = [] ++ [{| Connector.tx_account := Sample.alice;
                Connector.tx_secret := Nat.iter 500 Sample.hash [1; 2];
                Connector.tx_nonce := Some n |}] /\
    Connector.signAndSend Sample.chain
      {| Connector.tx_account := Sample.alice;
         Connector.tx_secret := Nat.iter 500 Sample.hash [1; 2];
         Connector.tx_nonce := Some n |}
    = Resolved tt.
Proof.
  apply (ConnectorFacts.initOnchainValues_secret_chain Sample.secret_key Sample.hash id
           Sample.chain [1; 2] None Sample.connector).
  reflexivity.
Defined.

(** A nonce of 0 on the started sample connector, whose next nonce is 7. *)
Lemma manual_nonce_zero_witness :
  Connector.tx_nonce
    <$> last (Connector.submitted
                (fst (Connector.initOnchainValues Sample.secret_key Sample.hash id
                        Sample.chain [1; 2] (Some 0) Sample.connector)))
  = Some (Some 0) /\
  Connector.tx_nonce
    <$> last (Connector.submitted
                (fst (Connector.Class_initOnchainValues Sample.secret_key Sample.hash id
                        Sample.chain [1; 2] (Some 0) Sample.connector)))
  = Some (Some 7).
Proof.
  destruct (ConnectorFacts.manual_nonce_zero Sample.secret_key Sample.hash id
              Sample.chain [1; 2] Sample.connector
              {| HoprPolkadot._started := true; HoprPolkadot._nonce := Some 8 |} 7
              eq_refl eq_refl)
    as [[_ HA] [_ HB]].
  rewrite HA, HB. split; reflexivity.
Defined.

(** A free balance of 50 is enough for a request of 50. *)
Lemma checkFreeBalance_threshold_witness :
  Connector.checkFreeBalance Sample.chain Sample.connector 50 = Resolved tt.
Proof.
  apply (ConnectorFacts.checkFreeBalance_threshold Sample.chain Sample.connector 50 50).
  - reflexivity.
  - lia.
Defined.

(** A stored secret and no key on-chain: the stored secret is sent as it
    is. *)
Lemma checkOnChainValues_cases_witness :
  Connector.submitted
    (fst (Connector.checkOnChainValues Sample.secret_key Sample.u8aEquals 2 2 id
            Sample.chain Sample.connector_with_secret))
  = [] ++ [{| Connector.tx_account := Sample.alice;
              Connector.tx_secret := [1; 2];
              Connector.tx_nonce := None |}].
Proof.
  apply (ConnectorFacts.checkOnChainValues_cases Sample.secret_key Sample.u8aEquals 2 2 id
           Sample.chain Sample.connector_with_secret
           {| Connector.pubkey := [0; 0]; Connector.secret := [0; 0] |} eq_refl).
  - vm_compute. reflexivity.
  - reflexivity.
Defined.

(** The two regions of the sample signed ticket. *)
Lemma signed_ticket_regions_witness :
  SignedTicket.subarray Sample.Ticket
    {| SignedTicket.content := [1; 2; 3; 7; 8; 0; 0]; SignedTicket._ticket := None |}
    0 (Some Sample.Signature_SIZE) = Ok [1; 2; 3] /\
  SignedTicket.subarray Sample.Ticket
    {| SignedTicket.content := [1; 2; 3; 7; 8; 0; 0]; SignedTicket._ticket := None |}
    Sample.Signature_SIZE (Some (SignedTicket.SIZE Sample.Ticket_SIZE Sample.Signature_SIZE))
    = Ok [7; 8; 0; 0] /\
  SignedTicket.subarray Sample.Ticket
    {| SignedTicket.content := [1; 2; 3; 7; 8; 0; 0]; SignedTicket._ticket := None |}
    0 None = Ok [1; 2; 3; 7; 8; 0; 0].
Proof.
  apply (SignedTicketMore.signed_ticket_regions Sample.Ticket Sample.toU8a
           Sample.Ticket_SIZE Sample.Signature_SIZE
           {| SignedTicket.signature := [1; 2; 3]; SignedTicket.ticket := (7, 8) |}).
  - reflexivity.
  - reflexivity.
Defined.

(** The ticket read once is returned again, whatever the decoder. *)
Lemma get_ticket_memoized_witness :
  SignedTicket.get_ticket Sample.Ticket (fun _ => (0, 0))
    Sample.Ticket_SIZE Sample.Signature_SIZE
    {| SignedTicket.content := [1; 2; 3; 7; 8; 0; 0]; SignedTicket._ticket := Some (7, 8) |}
  = ({| SignedTicket.content := [1; 2; 3; 7; 8; 0; 0]; SignedTicket._ticket := Some (7, 8) |},
     Ok (7, 8)).
Proof.
  apply (SignedTicketMore.get_ticket_memoized Sample.Ticket Sample.fromU8a
           Sample.Ticket_SIZE Sample.Signature_SIZE
           {| SignedTicket.content := [1; 2; 3; 7; 8; 0; 0]; SignedTicket._ticket := None |}).
  reflexivity.
Defined.

End CheckedMore.
